(** * sageopt.coniclifts: epigraph atoms, elementwise constraints and the
      primal ordinary SAGE cone, embedded from the Python sources.

    Python integers (ids, row and column indices, sizes) are [Z]; Python
    floats are exact rationals [Q]; lists, tuples and one-dimensional arrays
    are [list]s; a raised exception is the [Raise] branch of [result]. *)

From Stdlib Require Import String DecimalString DecimalZ DecimalPos.
From Stdlib Require Import ZArith QArith Qabs Qminmax.
From Stdlib Require Import Bool Lia Lqa List Sorted.
Import ListNotations.

Local Open Scope Z_scope.

(** ** Exceptions *)

Inductive exn : Type :=
| RuntimeError (msg : string)
| TypeError
| IndexError
| AxisError
| ValueError (msg : string)
| NotImplementedError.

Inductive result (A : Type) : Type :=
| Ok (a : A)
| Raise (e : exn).

Arguments Ok {A} a.
Arguments Raise {A} e.

Definition bind {A B : Type} (r : result A) (k : A -> result B) : result B :=
  match r with
  | Ok a => k a
  | Raise e => Raise e
  end.

Notation "x <- r ;; k" := (bind r (fun x => k))
  (at level 61, r at next level, right associativity).

(** [str(k)] of a Python integer. *)
Definition str (k : Z) : string := NilZero.string_of_int (Z.to_int k).

(** ** coniclifts/base.py and coniclifts/cones.py: the parts the sources use *)

Module base.

(** Modelled from the spec: base.py is not among the sources.  A
    ScalarVariable carries a process-wide unique integer id which is also its
    column index. *)
Record ScalarVariable : Type := { id : Z }.

(** The class-level counters of the process. *)
Record Globals : Type := {
  _SCALAR_VARIABLE_COUNTER_ : Z;
  _EXPONENTIAL_COUNTER_ : Z;
  _VECTOR_2_NORM_COUNTER_ : Z;
  _ELEMENTWISE_CONSTRAINT_ID_ : Z
}.

Definition curr_variable_count (g : Globals) : Z :=
  _SCALAR_VARIABLE_COUNTER_ g.

(** Modelled from the spec: [Variable(shape=())] followed by
    [v[()].scalar_variables()[0]] allocates one ScalarVariable whose id is
    the current value of the counter, and advances the counter. *)
Definition Variable_scalar (g : Globals) : ScalarVariable * Globals :=
  ({| id := _SCALAR_VARIABLE_COUNTER_ g |},
   {| _SCALAR_VARIABLE_COUNTER_ := _SCALAR_VARIABLE_COUNTER_ g + 1;
      _EXPONENTIAL_COUNTER_ := _EXPONENTIAL_COUNTER_ g;
      _VECTOR_2_NORM_COUNTER_ := _VECTOR_2_NORM_COUNTER_ g;
      _ELEMENTWISE_CONSTRAINT_ID_ := _ELEMENTWISE_CONSTRAINT_ID_ g |}).

(** What [NonlinearScalarAtom.parse_arg] hands to an atom: a sequence of
    (variable, coefficient) pairs closed by one pair whose second entry is
    the constant term.  The atoms read it as [x[:-1]] ([arg_terms]),
    [x[-1][1]] ([arg_offset]) and [len(x) - 1] ([length arg_terms]). *)
Record ParsedArg : Type := {
  arg_terms : list (ScalarVariable * Q);
  arg_offset : Q
}.

End base.

Module cones.

(** [Cone(type, len)]: a tag among '0', '+', 'S', 'e' and a size. *)
Record Cone : Type := { type : string; len : Z }.

End cones.

(** ** The numpy operations the sources call *)

Module np.

Definition zeros (n : nat) : list Q := repeat 0%Q n.

(** [np.empty]: the contents are unspecified until written; every entry of
    an array made with it is assigned before it is read. *)
Definition empty (n : nat) : list Q := repeat 0%Q n.

(** [b[i] = v] on a one-dimensional array: a negative index counts from the
    end, and an index outside the array raises IndexError. *)
Fixpoint setitem_nat (b : list Q) (i : nat) (v : Q) : result (list Q) :=
  match b, i with
  | [], _ => Raise IndexError
  | _ :: tl, O => Ok (v :: tl)
  | hd :: tl, S i' => tl' <- setitem_nat tl i' v ;; Ok (hd :: tl')
  end.

Definition setitem (b : list Q) (i : Z) (v : Q) : result (list Q) :=
  let i := if i <? 0 then Z.of_nat (List.length b) + i else i in
  if i <? 0 then Raise IndexError else setitem_nat b (Z.to_nat i) v.

(** What can be passed as the [axis] of a reduction. *)
Inductive axis_arg : Type :=
| axis_None
| axis_int (k : Z)
| axis_float_array (x : list Q).

(** [np.max(a, axis)] and [np.min(a, axis)] for a scalar [a]: the signature
    is [amax(a, axis=None, ...)], the array to reduce comes first and the
    second positional argument is the axis.  A scalar has no axis to reduce
    over: None, 0 and -1 give the scalar back, another integer is an
    AxisError, and an array of floats is no integer at all. *)
Definition reduce_scalar (a : Q) (axis : axis_arg) : result Q :=
  match axis with
  | axis_None => Ok a
  | axis_int k => if (k =? 0) || (k =? -1) then Ok a else Raise AxisError
  | axis_float_array _ => Raise TypeError
  end.

Definition max (a : Q) (axis : axis_arg) : result Q := reduce_scalar a axis.
Definition min (a : Q) (axis : axis_arg) : result Q := reduce_scalar a axis.

Definition abs (x : list Q) : list Q := map Qabs x.

(** *** Arrays as objects: a view shares the buffer of its base *)

Record ndarray : Type := { data : nat }.

Definition memory : Type := list (list Q).

Definition array (h : memory) (l : list Q) : ndarray * memory :=
  ({| data := List.length h |}, h ++ [l]).

Definition tolist (h : memory) (a : ndarray) : list Q := nth (data a) h [].

(** [a.reshape((-1,))] of a one-dimensional contiguous array is a view: a
    new array object on the same buffer. *)
Definition reshape_flat (a : ndarray) : ndarray := {| data := data a |}.

Fixpoint update_buffer (h : memory) (k : nat) (f : list Q -> list Q)
  : memory :=
  match h, k with
  | [], _ => []
  | l :: tl, O => f l :: tl
  | l :: tl, S k' => l :: update_buffer tl k' f
  end.

(** [a[mask(a)] = v]: boolean-mask assignment, written through to the
    buffer. *)
Definition setitem_where (h : memory) (a : ndarray) (mask : Q -> bool)
    (v : Q) : memory :=
  update_buffer h (data a) (map (fun x => if mask x then v else x)).

(** *** [np.linalg.norm(x, ord)] on a one-dimensional array *)

Inductive ord_arg : Type := ord_inf | ord_1 | ord_2.

Section norm.
Variable sqrt : Q -> Q.

Definition sum (x : list Q) : Q := fold_right Qplus 0%Q x.

Definition linalg_norm (x : list Q) (ord : ord_arg) : result Q :=
  match ord with
  | ord_inf =>
      match abs x with
      | [] => Raise (ValueError "zero-size array to reduction operation")
      | y :: ys => Ok (fold_left Qmax ys y)
      end
  | ord_1 => Ok (sum (abs x))
  | ord_2 => Ok (sqrt (sum (map (fun y => (y * y)%Q) x)))
  end.
End norm.

End np.

(** The six positions of a compiled fragment.  Each constructor names the
    local variable of the source that is put in the position. *)
Inductive component : Type :=
| A_vals (l : list Q)
| A_rows (l : list Z)
| A_cols (l : list Z)
| b_vec (l : list Q)
| K_list (l : list cones.Cone)
| aux (v : base.ScalarVariable)
| empty_list.  (* the [[]] that closes an elementwise fragment *)

Definition fragment : Type :=
  (component * component * component * component * component * component)%type.

(** ** coniclifts/operators/exp.py *)

Module exp.
Import base cones.

Record Exponential : Type := {
  _id : Z;
  args : ParsedArg;
  aux_var : option ScalarVariable
}.

Definition __init__ (x : ParsedArg) (g : Globals) : Exponential * Globals :=
  ({| _id := _EXPONENTIAL_COUNTER_ g; args := x; aux_var := None |},
   {| _SCALAR_VARIABLE_COUNTER_ := _SCALAR_VARIABLE_COUNTER_ g;
      _EXPONENTIAL_COUNTER_ := _EXPONENTIAL_COUNTER_ g + 1;
      _VECTOR_2_NORM_COUNTER_ := _VECTOR_2_NORM_COUNTER_ g;
      _ELEMENTWISE_CONSTRAINT_ID_ := _ELEMENTWISE_CONSTRAINT_ID_ g |}).

Definition is_convex (self : Exponential) : bool := true.
Definition is_concave (self : Exponential) : bool := false.

(** [if self.aux_var is None: ... self.aux_var = v[()].scalar_variables()[0]] *)
Definition ensure_aux_var (self : Exponential) (g : Globals)
  : ScalarVariable * Exponential * Globals :=
  match aux_var self with
  | None =>
      let '(v, g') := Variable_scalar g in
      (v, {| _id := _id self; args := args self; aux_var := Some v |}, g')
  | Some v => (v, self, g)
  end.

Definition epigraph_conic_form (self : Exponential) (g : Globals)
  : result (fragment * Exponential * Globals) :=
  let '(av, self, g) := ensure_aux_var self g in
  let b := np.zeros 3 in
  let K := [ {| type := "e"; len := 3 |} ] in
  let x := args self in
  (* first coordinate *)
  let rows := [] ++ repeat 0 (length (arg_terms x)) in
  let cols := map (fun vc => id (fst vc)) (arg_terms x) in
  let vals := map (fun vc => snd vc) (arg_terms x) in
  b <- np.setitem b 0 (arg_offset x) ;;
  (* second coordinate *)
  let rows := rows ++ [1] in
  let cols := cols ++ [id av] in
  let vals := vals ++ [1%Q] in
  (* third coordinate *)
  let rows := rows ++ [2] in
  let cols := cols ++ [curr_variable_count g - 1] in
  let vals := vals ++ [0%Q] in
  b <- np.setitem b 2 1%Q ;;
  Ok ((A_vals vals, A_rows rows, A_cols cols, b_vec b, K_list K, aux av),
      self, g).

End exp.

(** ** coniclifts/operators/norms.py *)

Module norms.
Import base cones.

Record Vector2Norm : Type := {
  _id : Z;
  args : list ParsedArg;
  aux_var : option ScalarVariable
}.

Definition __init__ (xs : list ParsedArg) (g : Globals)
  : Vector2Norm * Globals :=
  ({| _id := _VECTOR_2_NORM_COUNTER_ g; args := xs; aux_var := None |},
   {| _SCALAR_VARIABLE_COUNTER_ := _SCALAR_VARIABLE_COUNTER_ g;
      _EXPONENTIAL_COUNTER_ := _EXPONENTIAL_COUNTER_ g;
      _VECTOR_2_NORM_COUNTER_ := _VECTOR_2_NORM_COUNTER_ g + 1;
      _ELEMENTWISE_CONSTRAINT_ID_ := _ELEMENTWISE_CONSTRAINT_ID_ g |}).

Definition is_convex (self : Vector2Norm) : bool := true.
Definition is_concave (self : Vector2Norm) : bool := false.

Definition ensure_aux_var (self : Vector2Norm) (g : Globals)
  : ScalarVariable * Vector2Norm * Globals :=
  match aux_var self with
  | None =>
      let '(v, g') := Variable_scalar g in
      (v, {| _id := _id self; args := args self; aux_var := Some v |}, g')
  | Some v => (v, self, g)
  end.

(** The body of [for i, arg in enumerate(self.args)], from index [i] on. *)
Fixpoint args_loop (i : Z) (todo : list ParsedArg)
    (rows cols : list Z) (vals b : list Q)
  : result (list Z * list Z * list Q * list Q) :=
  match todo with
  | [] => Ok (rows, cols, vals, b)
  | arg :: rest =>
      let rows := rows ++ repeat (i + 1) (length (arg_terms arg)) in
      let cols := cols ++ map (fun vc => id (fst vc)) (arg_terms arg) in
      let vals := vals ++ map (fun vc => snd vc) (arg_terms arg) in
      b <- np.setitem b i (arg_offset arg) ;;
      args_loop (i + 1) rest rows cols vals b
  end.

Definition epigraph_conic_form (self : Vector2Norm) (g : Globals)
  : result (fragment * Vector2Norm * Globals) :=
  let '(av, self, g) := ensure_aux_var self g in
  let m := (length (args self) + 1)%nat in
  let b := np.zeros m in
  r <- args_loop 0 (args self) [0] [id av] [1%Q] b ;;
  let '(rows, cols, vals, b) := r in
  let K := [ {| type := "S"; len := Z.of_nat m |} ] in
  Ok ((A_rows rows, A_cols cols, A_vals vals, b_vec b, K_list K, aux av),
      self, g).

End norms.

(** ** coniclifts/base.py: scalar and array expressions *)

Module expressions.
Import base.

(** Modelled from the spec: the keys of a ScalarExpression are atoms, a
    ScalarVariable or a NonlinearScalarAtom (Exponential, Vector2Norm),
    each with an [id]. *)
Inductive Atom : Type :=
| variable_atom (v : ScalarVariable)
| exponential_atom (e : exp.Exponential)
| vector2norm_atom (n : norms.Vector2Norm).

Definition atom_id (a : Atom) : Z :=
  match a with
  | variable_atom v => id v
  | exponential_atom e => exp._id e
  | vector2norm_atom n => norms._id n
  end.

(** Modelled from the spec: an affine combination, a mapping from atom to
    coefficient (a dict, iterated in insertion order) plus an offset. *)
Record ScalarExpression : Type := {
  atoms_to_coeffs : list (Atom * Q);
  offset : Q
}.

(** An Expression after [ravel()]: the flat sequence of its entries. *)
Definition Expression : Type := list ScalarExpression.

Definition is_variable (a : Atom) : bool :=
  match a with
  | variable_atom _ => true
  | _ => false
  end.

(** Modelled from the spec: affinity holds iff every atom is a
    ScalarVariable. *)
Definition scalar_is_affine (se : ScalarExpression) : bool :=
  forallb (fun ac => is_variable (fst ac)) (atoms_to_coeffs se).

Definition is_affine (e : Expression) : bool := forallb scalar_is_affine e.

Definition atom_is_convex (a : Atom) : bool :=
  match a with
  | variable_atom _ => true
  | exponential_atom e => exp.is_convex e
  | vector2norm_atom n => norms.is_convex n
  end.

Definition atom_is_concave (a : Atom) : bool :=
  match a with
  | variable_atom _ => true
  | exponential_atom e => exp.is_concave e
  | vector2norm_atom n => norms.is_concave n
  end.

(** Modelled from the spec: a summand is convex when its atom is convex
    and used with a nonnegative coefficient, or concave and used with a
    nonpositive one. *)
Definition scalar_is_convex (se : ScalarExpression) : bool :=
  forallb (fun ac =>
             (atom_is_convex (fst ac) && Qle_bool 0 (snd ac))
             || (atom_is_concave (fst ac) && Qle_bool (snd ac) 0))
          (atoms_to_coeffs se).

(** Entrywise, as an array of booleans. *)
Definition is_convex (e : Expression) : list bool := map scalar_is_convex e.

End expressions.

(** ** coniclifts/constraints/elementwise.py *)

Module elementwise.
Import base cones expressions.

Definition _CURVATURE_CHECK_ : bool := false.

Record ElementwiseConstraint : Type := {
  id : Z;
  lhs : Expression;
  rhs : Expression;
  initial_operator : string;
  name : string;
  expr : Expression;
  operator : string;
  epigraph_checked : bool
}.

Definition next_constraint_id (g : Globals) : Globals :=
  {| _SCALAR_VARIABLE_COUNTER_ := _SCALAR_VARIABLE_COUNTER_ g;
     _EXPONENTIAL_COUNTER_ := _EXPONENTIAL_COUNTER_ g;
     _VECTOR_2_NORM_COUNTER_ := _VECTOR_2_NORM_COUNTER_ g;
     _ELEMENTWISE_CONSTRAINT_ID_ := _ELEMENTWISE_CONSTRAINT_ID_ g + 1 |}.

(** External assignment of the flag, [con.epigraph_checked = flag]. *)
Definition set_epigraph_checked (flag : bool) (self : ElementwiseConstraint)
  : ElementwiseConstraint :=
  {| id := id self; lhs := lhs self; rhs := rhs self;
     initial_operator := initial_operator self; name := name self;
     expr := expr self;
     operator := operator self; epigraph_checked := flag |}.

(** The loop [for i, se in enumerate(self.expr.flat)], from index [i] on;
    [count] is [ScalarVariable.curr_variable_count()]. *)
Fixpoint rows_loop (count : Z) (i : Z) (todo : list ScalarExpression)
    (rows cols : list Z) (vals b : list Q)
  : result (list Z * list Z * list Q * list Q) :=
  match todo with
  | [] => Ok (rows, cols, vals, b)
  | se :: rest =>
      if (List.length (atoms_to_coeffs se) =? 0)%nat then
        b <- np.setitem b i (- offset se)%Q ;;
        let rows := rows ++ [i] in
        let cols := cols ++ [count - 1] in
        let vals := vals ++ [0%Q] in
        rows_loop count (i + 1) rest rows cols vals b
      else
        b <- np.setitem b i (- offset se)%Q ;;
        let rows := rows ++ repeat i (List.length (atoms_to_coeffs se)) in
        let col_idx_to_coeff :=
          map (fun ac => (atom_id (fst ac), snd ac)) (atoms_to_coeffs se) in
        let cols := cols ++ map (fun p => fst p) col_idx_to_coeff in
        let vals := vals ++ map (fun p => (- snd p)%Q) col_idx_to_coeff in
        rows_loop count (i + 1) rest rows cols vals b
  end.

Definition conic_form (self : ElementwiseConstraint) (g : Globals)
  : result fragment :=
  if negb (epigraph_checked self) then
    Raise (RuntimeError
             "Cannot canonicalize without check for epigraph substitution.")
  else
    let m := List.length (expr self) in
    let b := np.empty m in
    K <- (if (operator self =? "==")%string then
            Ok [ {| type := "0"; len := Z.of_nat m |} ]
          else if (operator self =? "<=")%string then
            Ok [ {| type := "+"; len := Z.of_nat m |} ]
          else Raise (RuntimeError "Unknown operator.")) ;;
    r <- rows_loop (curr_variable_count g) 0 (expr self) [] [] [] b ;;
    let '(rows, cols, vals, b) := r in
    Ok (A_vals vals, A_rows rows, A_cols cols, b_vec b, K_list K, empty_list).

Definition is_affine (self : ElementwiseConstraint) : bool :=
  if existsb (String.eqb (operator self)) ["=="%string] then true
  else expressions.is_affine (expr self).

Definition is_elementwise (self : ElementwiseConstraint) : bool := true.
Definition is_setmem (self : ElementwiseConstraint) : bool := false.

Section with_base.

(** [(a - b).as_expr().ravel()], the entrywise difference of base.py. *)
Variable sub : Expression -> Expression -> Expression.

(** [expr.value()], the array of the entries' values at the current
    assignment of the variables. *)
Variable value : Expression -> list Q.

Variable sqrt : Q -> Q.

Definition __init__ (lhs rhs : Expression) (operator : string)
    (g : Globals) : result (ElementwiseConstraint * Globals) :=
  let self_id := _ELEMENTWISE_CONSTRAINT_ID_ g in
  let g := next_constraint_id g in
  let name_str := ("Elementwise[" ++ str self_id ++ "] : ")%string in
  if (operator =? "==")%string then
    let e := sub lhs rhs in
    if _CURVATURE_CHECK_ && negb (expressions.is_affine e) then
      Raise (RuntimeError "Equality constraints must be affine.")
    else
      Ok ({| id := self_id; lhs := lhs; rhs := rhs;
             initial_operator := operator; name := name_str;
             expr := e;
             operator := "=="; epigraph_checked := true |}, g)
  else
    let e := if (operator =? ">=")%string then sub rhs lhs
             else sub lhs rhs in
    if _CURVATURE_CHECK_
       && negb (forallb (fun c => c) (expressions.is_convex e)) then
      Raise (RuntimeError "Cannot canonicalize.")
    else
      Ok ({| id := self_id; lhs := lhs; rhs := rhs;
             initial_operator := operator; name := name_str;
             expr := e;
             operator := "<="; epigraph_checked := false |}, g).

(** The norm used when [norm is None]. *)
Definition default_norm (x : list Q) : result Q :=
  if (List.length x =? 1)%nat then Ok (Qabs (hd 0%Q x))
  else np.linalg_norm sqrt x np.ord_2.

Definition violation (self : ElementwiseConstraint)
    (norm : option (list Q -> result Q)) : result Q :=
  let norm := match norm with
              | None => default_norm
              | Some f => f
              end in
  let expr_val := value (sub (lhs self) (rhs self)) in
  residual <-
    (if (initial_operator self =? "<=")%string then
       r <- np.max 0%Q (np.axis_float_array expr_val) ;; Ok [r]
     else if (initial_operator self =? ">=")%string then
       r <- np.min 0%Q (np.axis_float_array expr_val) ;; Ok [r]
     else Ok (np.abs expr_val)) ;;
  norm residual.

End with_base.

End elementwise.

(** ** coniclifts/constraints/set_membership/ordinary_sage_cone.py *)

Module ordinary_sage_cone.
Import base cones expressions.

(** The attributes that the branch [m <= 2] reads.  The presolve helper
    and the auxiliary variables of the AGE cones exist only for [m > 2]. *)
Record PrimalOrdinarySageCone : Type := {
  name : string;
  alpha : list (list Q);
  m : Z;
  n : Z;
  c : Expression
}.

Definition __init__ (c : Expression) (alpha : list (list Q)) (name : string)
  : PrimalOrdinarySageCone :=
  {| name := name; alpha := alpha;
     m := Z.of_nat (List.length alpha);
     n := Z.of_nat (List.length (hd [] alpha));
     c := c |}.

Section with_base.

Variable sub : Expression -> Expression -> Expression.
Variable value : Expression -> list Q.
Variable sqrt : Q -> Q.

(** Lines 243 to 264, the branch [m > 2]: the projection solved by the
    external solver, or the rough surrogate over the AGE vectors. *)
Variable violation_general :
  PrimalOrdinarySageCone -> list Q -> np.ord_arg -> bool -> result Q.

Definition violation (self : PrimalOrdinarySageCone)
    (norm_ord : np.ord_arg) (rough : bool) : result Q :=
  let '(c_arr, h) := np.array [] (value (c self)) in
  if 2 <? m self then
    violation_general self (np.tolist h c_arr) norm_ord rough
  else
    let residual := np.reshape_flat c_arr in
    let h := np.setitem_where h residual (fun x => Qle_bool 0 x) 0%Q in
    np.linalg_norm sqrt (np.tolist h c_arr) norm_ord.

(** [violation()] with the defaults [norm_ord=np.inf, rough=False]. *)
Definition violation_default (self : PrimalOrdinarySageCone) : result Q :=
  violation self np.ord_inf false.

(** [self.c >= 0] builds the elementwise constraint of [c] against the
    constant zero expression of the same size. *)
Definition zeros_like (e : Expression) : Expression :=
  map (fun _ => {| atoms_to_coeffs := []; offset := 0%Q |}) e.

(** The tuple that a fragment is, position by position. *)
Definition as_tuple (t : fragment) : list component :=
  let '(p0, p1, p2, p3, p4, p5) := t in [p0; p1; p2; p3; p4; p5].

(** [x0, x1, x2, x3, x4 = t]: unpacking needs exactly five positions. *)
Definition unpack_five (t : list component) : result (list component) :=
  match t with
  | [x0; x1; x2; x3; x4] => Ok [x0; x1; x2; x3; x4]
  | _ :: _ :: _ :: _ :: _ :: _ :: _ =>
      Raise (ValueError "too many values to unpack (expected 5)")
  | _ => Raise (ValueError "not enough values to unpack (expected 5)")
  end.

(** Lines 187 to 215, the branch [m > 2] of [conic_form]. *)
Variable conic_form_general :
  PrimalOrdinarySageCone -> Globals -> result (list (list component) * Globals).

Definition conic_form (self : PrimalOrdinarySageCone) (g : Globals)
  : result (list (list component) * Globals) :=
  if 2 <? m self then conic_form_general self g
  else
    r <- elementwise.__init__ sub (c self) (zeros_like (c self)) ">=" g ;;
    let '(con, g) := r in
    let con := elementwise.set_epigraph_checked true con in
    t <- elementwise.conic_form con g ;;
    u <- unpack_five (as_tuple t) ;;
    let cone_data := [u] in
    Ok (cone_data, g).

End with_base.

End ordinary_sage_cone.

(** ** A concrete scalar algebra, used to run the constraints on examples *)

Module algebra.
Import base expressions.

Definition atom_eqb (a a' : Atom) : bool :=
  match a, a' with
  | variable_atom v, variable_atom v' => id v =? id v'
  | exponential_atom e, exponential_atom e' => exp._id e =? exp._id e'
  | vector2norm_atom n, vector2norm_atom n' => norms._id n =? norms._id n'
  | _, _ => false
  end.

Fixpoint add_coeff (a : Atom) (c : Q) (d : list (Atom * Q))
  : list (Atom * Q) :=
  match d with
  | [] => [(a, c)]
  | (a', c') :: tl =>
      if atom_eqb a a' then (a', Qred (c' + c)) :: tl
      else (a', c') :: add_coeff a c tl
  end.

(** Modelled from the spec: arithmetic merges the coefficients on the same
    atom and drops the terms whose coefficient became zero. *)
Definition scalar_sub (x y : ScalarExpression) : ScalarExpression :=
  {| atoms_to_coeffs :=
       filter (fun ac => negb (Qeq_bool (snd ac) 0))
              (fold_left (fun d ac => add_coeff (fst ac) (- snd ac) d)
                         (atoms_to_coeffs y) (atoms_to_coeffs x));
     offset := Qred (offset x - offset y) |}.

Fixpoint sub (a b : Expression) : Expression :=
  match a, b with
  | x :: a', y :: b' => scalar_sub x y :: sub a' b'
  | _, _ => []
  end.

(** Modelled from the spec: the value of an affine combination, the offset
    plus the coefficients times the values of the variables; [x] gives the
    value of the atom with a given id. *)
Definition scalar_value (x : Z -> Q) (se : ScalarExpression) : Q :=
  Qred (fold_left (fun acc ac => acc + snd ac * x (atom_id (fst ac)))
                  (atoms_to_coeffs se) (offset se))%Q.

Definition value (x : Z -> Q) (e : Expression) : list Q :=
  map (scalar_value x) e.

Definition var (k : Z) : ScalarExpression :=
  {| atoms_to_coeffs := [(variable_atom {| id := k |}, 1%Q)];
     offset := 0%Q |}.

Definition const (q : Q) : ScalarExpression :=
  {| atoms_to_coeffs := []; offset := q |}.

End algebra.

(** ** Reading a fragment: the entries of one row, and the affine image *)

(** The (column, value) pairs emitted with row index [i], in emission
    order. *)
Definition row_of (i : Z) (rows cols : list Z) (vals : list Q)
  : list (Z * Q) :=
  map snd (filter (fun e => fst e =? i) (combine rows (combine cols vals))).

(** Modelled from the spec (section 6): [A] scatters
    [(rows[k], cols[k]) -> vals[k]], duplicates accumulate, and the fragment
    asserts that [A x + b] lies in the product of the cones. *)
Definition dot (entries : list (Z * Q)) (x : Z -> Q) : Q :=
  fold_right (fun e acc => (snd e * x (fst e) + acc)%Q) 0%Q entries.

Fixpoint image_from (i : Z) (rows cols : list Z) (vals b : list Q)
    (x : Z -> Q) : list Q :=
  match b with
  | [] => []
  | bi :: b' =>
      (dot (row_of i rows cols vals) x + bi)%Q
      :: image_from (i + 1) rows cols vals b' x
  end.

Definition affine_image (rows cols : list Z) (vals b : list Q) (x : Z -> Q)
  : list Q := image_from 0 rows cols vals b x.

(** ** What the loops emit, row by row *)

(** The entries (row, (column, value)) that [elementwise.conic_form] emits
    for the scalar expression at row [i]. *)
Definition row_entries (count i : Z) (se : expressions.ScalarExpression)
  : list (Z * (Z * Q)) :=
  match expressions.atoms_to_coeffs se with
  | [] => [(i, (count - 1, 0%Q))]
  | l => map (fun ac => (i, (expressions.atom_id (fst ac), (- snd ac)%Q))) l
  end.

Fixpoint entries_from (count i : Z) (todo : list expressions.ScalarExpression)
  : list (Z * (Z * Q)) :=
  match todo with
  | [] => []
  | se :: rest => row_entries count i se ++ entries_from count (i + 1) rest
  end.

(** The entries that [Vector2Norm.epigraph_conic_form] emits for the
    argument at index [i]. *)
Definition arg_entries (i : Z) (arg : base.ParsedArg) : list (Z * (Z * Q)) :=
  map (fun vc => (i + 1, (base.id (fst vc), snd vc))) (base.arg_terms arg).

Fixpoint arg_entries_from (i : Z) (todo : list base.ParsedArg)
  : list (Z * (Z * Q)) :=
  match todo with
  | [] => []
  | arg :: rest => arg_entries i arg ++ arg_entries_from (i + 1) rest
  end.

(** The value of a parsed affine argument at an assignment of the columns. *)
Definition arg_value (arg : base.ParsedArg) (x : Z -> Q) : Q :=
  (dot (map (fun vc => (base.id (fst vc), snd vc)) (base.arg_terms arg)) x
   + base.arg_offset arg)%Q.

(** The auxiliary variable in the last position of a fragment. *)
Definition aux_of (f : fragment) : option base.ScalarVariable :=
  match f with
  | (_, _, _, _, _, aux v) => Some v
  | _ => None
  end.

(** The negative part of an array: what [residual[residual >= 0] = 0]
    leaves. *)
Definition negative_part (x : list Q) : list Q :=
  map (fun y => if Qle_bool 0 y then 0%Q else y) x.

(** The cone tag that [elementwise.conic_form] emits for a canonical
    operator. *)
Definition emitted_tag (operator : string) : string :=
  if (operator =? "==")%string then "0"%string else "+"%string.

(** ** Concrete inputs *)

Module examples.
Import base expressions.

(** A process in which eight scalar variables (ids 0 to 7) exist. *)
Definition g8 : Globals :=
  {| _SCALAR_VARIABLE_COUNTER_ := 8;
     _EXPONENTIAL_COUNTER_ := 0;
     _VECTOR_2_NORM_COUNTER_ := 0;
     _ELEMENTWISE_CONSTRAINT_ID_ := 0 |}.

Definition v7 : ScalarVariable := {| id := 7 |}.

(** The affine argument [3 * v7 + 5]. *)
Definition arg_3v7_plus_5 : ParsedArg :=
  {| arg_terms := [(v7, 3%Q)]; arg_offset := 5%Q |}.

(** The expression [exp(3 * v7 + 5)], a single nonlinear atom. *)
Definition exp_expression : Expression :=
  [ {| atoms_to_coeffs :=
         [(exponential_atom (fst (exp.__init__ arg_3v7_plus_5 g8)), 1%Q)];
       offset := 0%Q |} ].

(** The two-entry expression [(2 * v7 + 1, 5)]: one row with an atom, one
    constant row. *)
Definition mixed_expression : Expression :=
  [ {| atoms_to_coeffs := [(variable_atom v7, 2%Q)]; offset := 1%Q |};
    algebra.const 5%Q ].

Definition zero2 : Expression := [algebra.const 0%Q; algebra.const 0%Q].

(** The canonical constraint [mixed_expression <= 0], rows checked. *)
Definition mixed_con : elementwise.ElementwiseConstraint :=
  {| elementwise.id := 0;
     elementwise.lhs := mixed_expression;
     elementwise.rhs := zero2;
     elementwise.initial_operator := "<=";
     elementwise.name := "Elementwise[0] : ";
     elementwise.expr := mixed_expression;
     elementwise.operator := "<=";
     elementwise.epigraph_checked := true |}.

(** The vector [(-1, 2)] as a constant expression. *)
Definition c_minus1_2 : Expression :=
  [algebra.const (-1 # 1)%Q; algebra.const 2%Q].

End examples.

(** ** coniclifts/operators/exp.py: [weighted_sum_exp] *)

(** [dict(kvs)]: the pairs are inserted in order; a key that is already
    present (by the keys' own equality) keeps its place and takes the new
    value. *)
Fixpoint dict_insert {K V : Type} (eqb : K -> K -> bool) (d : list (K * V))
    (k : K) (v : V) : list (K * V) :=
  match d with
  | [] => [(k, v)]
  | (k', v') :: tl =>
      if eqb k k' then (k', v) :: tl else (k', v') :: dict_insert eqb tl k v
  end.

Definition dict {K V : Type} (eqb : K -> K -> bool) (kvs : list (K * V))
  : list (K * V) :=
  fold_left (fun d kv => dict_insert eqb d (fst kv) (snd kv)) kvs [].

Section weighted_sum_exp_def.

(** [NonlinearScalarAtom.parse_arg] and the equality of Exponential atoms as
    dict keys, both of base.py. *)
Variable parse_arg : expressions.ScalarExpression -> result base.ParsedArg.
Variable exponential_eqb : exp.Exponential -> exp.Exponential -> bool.

(** The loop [for i in range(x.size): if c[i] != 0: kvs.append(...)]. *)
Fixpoint weighted_sum_exp_loop (x : expressions.Expression) (c : list Q)
    (kvs : list (exp.Exponential * Q)) (g : base.Globals)
  : result (list (exp.Exponential * Q) * base.Globals) :=
  match x, c with
  | [], _ => Ok (kvs, g)
  | _ :: _, [] => Raise IndexError
  | xi :: x', ci :: c' =>
      if negb (Qeq_bool ci 0) then
        a <- parse_arg xi ;;
        let '(e, g) := exp.__init__ a g in
        weighted_sum_exp_loop x' c' (kvs ++ [(e, ci)]) g
      else weighted_sum_exp_loop x' c' kvs g
  end.

Definition weighted_sum_exp (c : list Q) (x : expressions.Expression)
    (g : base.Globals) : result (expressions.Expression * base.Globals) :=
  if existsb (fun ci => negb (Qle_bool 0 ci)) c then
    Raise (RuntimeError
             "Epigraphs of non-constant signomials with negative terms are not supported.")
  else if negb (List.length x =? List.length c)%nat then
    Raise (RuntimeError "Incompatible arguments.")
  else
    r <- weighted_sum_exp_loop x c [] g ;;
    let '(kvs, g) := r in
    let d := dict exponential_eqb kvs in
    let se :=
      {| expressions.atoms_to_coeffs :=
           map (fun ec => (expressions.exponential_atom (fst ec), snd ec)) d;
         expressions.offset := 0%Q |} in
    Ok ([se], g).

End weighted_sum_exp_def.


(** A concrete [parse_arg] and key equality, used to run [weighted_sum_exp]
    on examples: an affine scalar expression parses to its (variable,
    coefficient) pairs and its offset, and two Exponential atoms are the
    same key when they are the same object (same id). *)
Definition example_parse_arg (se : expressions.ScalarExpression)
  : result base.ParsedArg :=
  if expressions.scalar_is_affine se then
    Ok {| base.arg_terms :=
            flat_map (fun ac => match fst ac with
                                | expressions.variable_atom v => [(v, snd ac)]
                                | _ => []
                                end)
                     (expressions.atoms_to_coeffs se);
          base.arg_offset := expressions.offset se |}
  else Raise (ValueError "the argument is not affine").

Definition example_exponential_eqb (e e' : exp.Exponential) : bool :=
  exp._id e =? exp._id e'.

(** ** ordinary_sage_cone.py: [project], the branch [m > 2] of [violation]
       without [rough], and [_initialize_variables] *)

Section project_def.

(** Lines 230 to 238 of [project]: the distance problem built on fresh
    variables and handed to the external solver. *)
Variable solve_projection : list Q -> list (list Q) -> result Q.

(** Lines 246 to 264 of [violation]: the rough surrogate. *)
Variable rough_violation :
  ordinary_sage_cone.PrimalOrdinarySageCone -> list Q -> np.ord_arg
  -> result Q.

Definition project (item : list Q) (alpha : list (list Q)) : result Q :=
  if forallb (fun y => Qle_bool 0 y) item then Ok 0%Q
  else solve_projection item alpha.

(** Lines 243 to 264: what [violation] does when [m > 2]. *)
Definition violation_large
    (self : ordinary_sage_cone.PrimalOrdinarySageCone) (c : list Q)
    (norm_ord : np.ord_arg) (rough : bool) : result Q :=
  if negb rough then project c (ordinary_sage_cone.alpha self)
  else rough_violation self c norm_ord.

End project_def.

(** Modelled from the spec: base.py is not among the sources.  A Variable
    of shape [(k,)] is [k] fresh ScalarVariables, whose ids are the next [k]
    values of the process-wide counter. *)
Record VariableArray : Type := {
  var_name : string;
  scalar_variables : list base.ScalarVariable
}.

Definition Variable_vector (k : nat) (name : string) (g : base.Globals)
  : VariableArray * base.Globals :=
  ({| var_name := name;
      scalar_variables :=
        map (fun j => {| base.id := base.curr_variable_count g + Z.of_nat j |})
            (seq 0 k) |},
   {| base._SCALAR_VARIABLE_COUNTER_ :=
        base._SCALAR_VARIABLE_COUNTER_ g + Z.of_nat k;
      base._EXPONENTIAL_COUNTER_ := base._EXPONENTIAL_COUNTER_ g;
      base._VECTOR_2_NORM_COUNTER_ := base._VECTOR_2_NORM_COUNTER_ g;
      base._ELEMENTWISE_CONSTRAINT_ID_ :=
        base._ELEMENTWISE_CONSTRAINT_ID_ g |}).

(** What the cone reads of its presolve helper [ech] (conditional_sage_cone
    is not among the sources): the indices [U_I] and [N_I], and the boolean
    selector [expcovers[i]] of each index. *)
Record ExpCoverHelper : Type := {
  U_I : list Z;
  N_I : list Z;
  expcovers : Z -> list bool
}.

(** The dicts and the list that [_initialize_variables] fills. *)
Record SageVariables : Type := {
  nu_vars : list (Z * VariableArray);
  c_vars : list (Z * VariableArray);
  relent_epi_vars : list (Z * VariableArray);
  _variables : list VariableArray
}.

Definition count_nonzero (mask : list bool) : nat :=
  List.length (filter (fun t => t) mask).

Definition contains (l : list Z) (i : Z) : bool := existsb (Z.eqb i) l.

(** The loop [for i in self.ech.U_I] of [_initialize_variables]. *)
Fixpoint initialize_loop (ech : ExpCoverHelper) (name : string)
    (todo : list Z) (st : SageVariables) (g : base.Globals)
  : SageVariables * base.Globals :=
  match todo with
  | [] => (st, g)
  | i :: rest =>
      let nu_len := count_nonzero (expcovers ech i) in
      let '(nu, epi, g) :=
        if (0 <? nu_len)%nat then
          let '(nu_i, g) :=
            Variable_vector nu_len
              ("nu^{(" ++ str i ++ ")}_{" ++ name ++ "}")%string g in
          let '(epi_i, g) :=
            Variable_vector nu_len
              ("_relent_epi_^{(" ++ str i ++ ")}_{" ++ name ++ "}")%string g in
          (dict_insert Z.eqb (nu_vars st) i nu_i,
           dict_insert Z.eqb (relent_epi_vars st) i epi_i, g)
        else (nu_vars st, relent_epi_vars st, g) in
      let c_len := nu_len in
      let c_len := if negb (contains (N_I ech) i) then (c_len + 1)%nat
                   else c_len in
      let '(c_i, g) :=
        Variable_vector c_len
          ("c^{(" ++ str i ++ ")}_{" ++ name ++ "}")%string g in
      initialize_loop ech name rest
        {| nu_vars := nu;
           c_vars := dict_insert Z.eqb (c_vars st) i c_i;
           relent_epi_vars := epi;
           _variables := _variables st |} g
  end.

(** [self._variables] holds the variables of [c] when
    [_initialize_variables] is called, and the dicts are empty. *)
Definition _initialize_variables
    (self : ordinary_sage_cone.PrimalOrdinarySageCone) (ech : ExpCoverHelper)
    (c_variables : list VariableArray) (g : base.Globals)
  : SageVariables * base.Globals :=
  let st := {| nu_vars := []; c_vars := []; relent_epi_vars := [];
               _variables := c_variables |} in
  if 2 <? ordinary_sage_cone.m self then
    let '(st, g) :=
      initialize_loop ech (ordinary_sage_cone.name self) (U_I ech) st g in
    let vars := _variables st ++ map snd (nu_vars st) in
    let vars := vars ++ map snd (c_vars st) in
    let vars := vars ++ map snd (relent_epi_vars st) in
    ({| nu_vars := nu_vars st; c_vars := c_vars st;
        relent_epi_vars := relent_epi_vars st; _variables := vars |}, g)
  else (st, g).

(** [d[k]] for a key that may be absent. *)
Fixpoint dict_get {V : Type} (d : list (Z * V)) (k : Z) : option V :=
  match d with
  | [] => None
  | (k', v) :: tl => if k =? k' then Some v else dict_get tl k
  end.

(** The number of scalar variables that index [i] needs: [nu], the epigraph
    variables and [c], with one more slot when [i] is not in [N_I]. *)
Definition variables_needed (ech : ExpCoverHelper) (i : Z) : nat :=
  let nu_len := count_nonzero (expcovers ech i) in
  (3 * nu_len + (if contains (N_I ech) i then 0 else 1))%nat.

Definition c_length (ech : ExpCoverHelper) (i : Z) : nat :=
  let nu_len := count_nonzero (expcovers ech i) in
  (nu_len + (if contains (N_I ech) i then 0 else 1))%nat.

(** The ids of the scalar variables held in a dict of Variables. *)
Definition dict_ids (d : list (Z * VariableArray)) : list Z :=
  flat_map (fun kv => map base.id (scalar_variables (snd kv))) d.

(** The scalar variables that the indices of a list need, in all. *)
Definition total_needed (ech : ExpCoverHelper) (l : list Z) : nat :=
  fold_right (fun i acc => (variables_needed ech i + acc)%nat) 0%nat l.

(** The number of selected terms in the cover of index [i]. *)
Definition nu_length (ech : ExpCoverHelper) (i : Z) : nat :=
  count_nonzero (expcovers ech i).

(** A helper with two indices over four terms: index 0 is covered by the
    terms 1 and 2, index 3 has an empty cover and lies in [N_I]. *)
Definition example_ech : ExpCoverHelper :=
  {| U_I := [0; 3];
     N_I := [3];
     expcovers := fun i => if i =? 0 then [false; true; true; false]
                           else [false; false; false; false] |}.

Definition example_cone : ordinary_sage_cone.PrimalOrdinarySageCone :=
  ordinary_sage_cone.__init__
    [algebra.var 0; algebra.const 1%Q; algebra.const 1%Q; algebra.const 2%Q]
    [[0%Q]; [1%Q]; [2%Q]; [3%Q]] "con".

(** ** interop/gpkit.py: [gpkit_hmap_to_sageopt_sig] *)

(** The exceptions of the code below: KeyError of a dict lookup, beside
    those of [exn]. *)
Inductive lookup_exn : Type :=
| KeyError
| other (e : exn).

Inductive outcome (A : Type) : Type :=
| Returned (a : A)
| Raised (e : lookup_exn).

Arguments Returned {A} a.
Arguments Raised {A} e.

Definition of_result {A : Type} (r : result A) : outcome A :=
  match r with
  | Ok a => Returned a
  | Raise e => Raised (other e)
  end.

Definition and_then {A B : Type} (r : outcome A) (k : A -> outcome B)
  : outcome B :=
  match r with
  | Returned a => k a
  | Raised e => Raised e
  end.

(** Equality of two tuples of numbers, as dict keys. *)
Fixpoint tuple_eqb (s t : list Q) : bool :=
  match s, t with
  | [], [] => true
  | a :: s', b :: t' => Qeq_bool a b && tuple_eqb s' t'
  | _, _ => false
  end.

Section gpkit.

(** The variable keys of the front end, with their equality as dict keys. *)
Variable VarKey : Type.
Variable varkey_eqb : VarKey -> VarKey -> bool.

(** [Signomial(temp_sig_dict)] of sageopt.symbolic, not among the sources. *)
Variable SignomialT : Type.
Variable Signomial : list (list Q * Q) -> SignomialT.

(** [vkmap[vk]] *)
Fixpoint vkmap_get (vkmap : list (VarKey * Z)) (vk : VarKey) : outcome Z :=
  match vkmap with
  | [] => Raised KeyError
  | (vk', k) :: tl => if varkey_eqb vk vk' then Returned k
                      else vkmap_get tl vk
  end.

(** The loop [for vk, expval in expinfo.items(): tup[vkmap[vk]] = expval]. *)
Fixpoint fill_tuple (vkmap : list (VarKey * Z)) (expinfo : list (VarKey * Q))
    (tup : list Q) : outcome (list Q) :=
  match expinfo with
  | [] => Returned tup
  | (vk, expval) :: rest =>
      and_then (vkmap_get vkmap vk) (fun k =>
      and_then (of_result (np.setitem tup k expval)) (fun tup =>
      fill_tuple vkmap rest tup))
  end.

(** The loop [for expinfo, coeff in curhmap.items()]. *)
Fixpoint hmap_loop (vkmap : list (VarKey * Z))
    (items : list (list (VarKey * Q) * Q)) (temp_sig_dict : list (list Q * Q))
  : outcome (list (list Q * Q)) :=
  match items with
  | [] => Returned temp_sig_dict
  | (expinfo, coeff) :: rest =>
      let n_vks := List.length vkmap in
      and_then (fill_tuple vkmap expinfo (repeat 0%Q n_vks)) (fun tup =>
      hmap_loop vkmap rest (dict_insert tuple_eqb temp_sig_dict tup coeff))
  end.

(** The dict handed to [Signomial]. *)
Definition temp_sig_dict_of (curhmap : list (list (VarKey * Q) * Q))
    (vkmap : list (VarKey * Z)) : outcome (list (list Q * Q)) :=
  hmap_loop vkmap curhmap [].

Definition gpkit_hmap_to_sageopt_sig
    (curhmap : list (list (VarKey * Q) * Q)) (vkmap : list (VarKey * Z))
  : outcome SignomialT :=
  and_then (temp_sig_dict_of curhmap vkmap) (fun d => Returned (Signomial d)).

End gpkit.

(** The exponent that a monomial gives to a key: the last pair of the key,
    if any. *)
Fixpoint exponent_of {VarKey : Type} (varkey_eqb : VarKey -> VarKey -> bool)
    (expinfo : list (VarKey * Q)) (vk : VarKey) : option Q :=
  match expinfo with
  | [] => None
  | (vk', e) :: rest =>
      match exponent_of varkey_eqb rest vk with
      | Some e' => Some e'
      | None => if varkey_eqb vk vk' then Some e else None
      end
  end.

(** [d[t]] for a tuple key. *)
Fixpoint tuple_get (d : list (list Q * Q)) (t : list Q) : option Q :=
  match d with
  | [] => None
  | (t', v) :: tl => if tuple_eqb t t' then Some v else tuple_get tl t
  end.

(** ** ordinary_sage_cone.py: [_build_aligned_age_vectors] *)

(** [a[i]] and [a[i] = v] on a one-dimensional array of objects: a negative
    index counts from the end, an index outside the array raises
    IndexError. *)
Definition list_getitem {A : Type} (a : list A) (i : Z) : result A :=
  let i := if i <? 0 then Z.of_nat (List.length a) + i else i in
  if i <? 0 then Raise IndexError
  else match nth_error a (Z.to_nat i) with
       | Some x => Ok x
       | None => Raise IndexError
       end.

Fixpoint list_setitem_nat {A : Type} (a : list A) (i : nat) (v : A)
  : result (list A) :=
  match a, i with
  | [], _ => Raise IndexError
  | _ :: tl, O => Ok (v :: tl)
  | hd :: tl, S i' => tl' <- list_setitem_nat tl i' v ;; Ok (hd :: tl')
  end.

Definition list_setitem {A : Type} (a : list A) (i : Z) (v : A)
  : result (list A) :=
  let i := if i <? 0 then Z.of_nat (List.length a) + i else i in
  if i <? 0 then Raise IndexError else list_setitem_nat a (Z.to_nat i) v.

(** The values go, in order, to the positions where the mask is true. *)
Fixpoint mask_fill {A : Type} (a : list A) (mask : list bool)
    (values : list A) : list A :=
  match a, mask with
  | x :: a', true :: mask' =>
      match values with
      | v :: values' => v :: mask_fill a' mask' values'
      | [] => x :: mask_fill a' mask' []
      end
  | x :: a', false :: mask' => x :: mask_fill a' mask' values
  | _, _ => a
  end.

(** [a[mask] = values] with a boolean mask: the mask has the length of the
    array, and there are as many values as selected positions, or a single
    value that is broadcast to all of them. *)
Definition setitem_mask {A : Type} (a : list A) (mask : list bool)
    (values : list A) : result (list A) :=
  if negb (List.length mask =? List.length a)%nat then Raise IndexError
  else if (List.length values =? count_nonzero mask)%nat then
    Ok (mask_fill a mask values)
  else match values with
       | [v] => Ok (mask_fill a mask (repeat v (count_nonzero mask)))
       | _ => Raise (ValueError
                       "boolean index assignment: wrong number of values")
       end.

(** Modelled from the spec: the entries of a Variable are the scalar
    expressions of its scalar variables, each with coefficient 1 and offset
    0. *)
Definition variable_entry (sv : base.ScalarVariable)
  : expressions.ScalarExpression :=
  {| expressions.atoms_to_coeffs := [(expressions.variable_atom sv, 1%Q)];
     expressions.offset := 0%Q |}.

Definition variable_entries (v : VariableArray) : expressions.Expression :=
  map variable_entry (scalar_variables v).

(** [d[k]], KeyError when the key is absent. *)
Definition dict_lookup {V : Type} (d : list (Z * V)) (k : Z) : outcome V :=
  match dict_get d k with
  | Some v => Returned v
  | None => Raised KeyError
  end.

(** The body of [for i in self.ech.U_I] of [_build_aligned_age_vectors]. *)
Definition aligned_age_vector
    (self : ordinary_sage_cone.PrimalOrdinarySageCone) (ech : ExpCoverHelper)
    (st : SageVariables) (i : Z) : outcome expressions.Expression :=
  let ci_expr :=
    repeat (algebra.const 0%Q) (Z.to_nat (ordinary_sage_cone.m self)) in
  if contains (N_I ech) i then
    and_then (dict_lookup (c_vars st) i) (fun cv =>
    and_then (of_result (setitem_mask ci_expr (expcovers ech i)
                                      (variable_entries cv))) (fun ci_expr =>
    and_then (of_result (list_getitem (ordinary_sage_cone.c self) i))
             (fun c_i =>
    of_result (list_setitem ci_expr i c_i))))
  else
    and_then (dict_lookup (c_vars st) i) (fun cv =>
    and_then (of_result (setitem_mask ci_expr (expcovers ech i)
                                      (removelast (variable_entries cv))))
             (fun ci_expr =>
    and_then (of_result (list_getitem (variable_entries cv) (-1)))
             (fun last =>
    of_result (list_setitem ci_expr i last)))).

Fixpoint build_loop (self : ordinary_sage_cone.PrimalOrdinarySageCone)
    (ech : ExpCoverHelper) (st : SageVariables) (todo : list Z)
    (age_vectors : list (Z * expressions.Expression))
  : outcome (list (Z * expressions.Expression)) :=
  match todo with
  | [] => Returned age_vectors
  | i :: rest =>
      and_then (aligned_age_vector self ech st i) (fun ci_expr =>
      build_loop self ech st rest (dict_insert Z.eqb age_vectors i ci_expr))
  end.

(** [age_vectors] is the dict [self.age_vectors] at the call: empty the
    first time, the vectors of the last call afterwards. *)
Definition _build_aligned_age_vectors
    (self : ordinary_sage_cone.PrimalOrdinarySageCone) (ech : ExpCoverHelper)
    (st : SageVariables) (age_vectors : list (Z * expressions.Expression))
  : outcome (list (Z * expressions.Expression)) :=
  build_loop self ech st (U_I ech) age_vectors.

(** The number of selected positions of a mask before position [j]. *)
Definition selected_before (mask : list bool) (j : nat) : nat :=
  count_nonzero (firstn j mask).

(** What [_build_aligned_age_vectors] relies on for the index [i]: it is a
    position of [c], its selector has one entry per term, and its [c]
    variable is the one [_initialize_variables] makes. *)
Definition index_ready (self : ordinary_sage_cone.PrimalOrdinarySageCone)
    (ech : ExpCoverHelper) (st : SageVariables) (i : Z) (cv : VariableArray)
  : Prop :=
  0 <= i < ordinary_sage_cone.m self
  /\ List.length (expcovers ech i) = Z.to_nat (ordinary_sage_cone.m self)
  /\ dict_get (c_vars st) i = Some cv
  /\ List.length (scalar_variables cv) = c_length ech i.

(** The aligned vector of the index [i]: of length [m]; at position [i] the
    entry [c[i]] when [i] is in [N_I], the last variable of [cv] otherwise;
    at another position of the cover the variable of [cv] of the same rank
    among the selected positions; 0 elsewhere. *)
Definition is_age_vector (self : ordinary_sage_cone.PrimalOrdinarySageCone)
    (ech : ExpCoverHelper) (i : Z) (cv : VariableArray)
    (av : expressions.Expression) : Prop :=
  List.length av = Z.to_nat (ordinary_sage_cone.m self)
  /\ nth_error av (Z.to_nat i)
     = (if contains (N_I ech) i
        then nth_error (ordinary_sage_cone.c self) (Z.to_nat i)
        else nth_error (variable_entries cv) (nu_length ech i))
  /\ forall j : nat,
      j <> Z.to_nat i ->
      (j < Z.to_nat (ordinary_sage_cone.m self))%nat ->
      nth_error av j
      = if nth j (expcovers ech i) false
        then nth_error (variable_entries cv)
                       (selected_before (expcovers ech i) j)
        else Some (algebra.const 0%Q).

(** Modelled from the spec (section 6): a fragment is read by position, as
    (coefficients, row indices, column indices, offsets, cones, ...).
    Whether a tuple holds its first five components in that order. *)
Definition in_protocol_order (f : fragment) : bool :=
  match f with
  | (A_vals _, A_rows _, A_cols _, b_vec _, K_list _, _) => true
  | _ => false
  end.

(** ** Auxiliary facts *)

Lemma setitem_nat_at (done pending : list Q) (old v : Q) :
  np.setitem_nat (done ++ old :: pending) (List.length done) v
  = Ok (done ++ v :: pending).
Proof.
  induction done as [|d done IH]; simpl.
  - reflexivity.
  - rewrite IH. reflexivity.
Qed.

Lemma setitem_at (done pending : list Q) (old v : Q) :
  np.setitem (done ++ old :: pending) (Z.of_nat (List.length done)) v
  = Ok (done ++ v :: pending).
Proof.
  unfold np.setitem.
  destruct (Z.ltb_spec (Z.of_nat (List.length done)) 0) as [H|_]; [lia|].
  destruct (Z.ltb_spec (Z.of_nat (List.length done)) 0) as [H|_]; [lia|].
  rewrite Nat2Z.id. apply setitem_nat_at.
Qed.

Lemma app_cons_assoc {A : Type} (l : list A) (a : A) (l' : list A) :
  l ++ a :: l' = (l ++ [a]) ++ l'.
Proof. rewrite <- app_assoc. reflexivity. Qed.

Lemma length_app_one {A : Type} (l : list A) (a : A) :
  Z.of_nat (List.length (l ++ [a])) = Z.of_nat (List.length l) + 1.
Proof. rewrite length_app. simpl. lia. Qed.

Lemma combine3_map {A : Type} (r c : A -> Z) (v : A -> Q) (l : list A) :
  combine (map r l) (combine (map c l) (map v l))
  = map (fun e => (r e, (c e, v e))) l.
Proof.
  induction l as [|e l IH]; simpl; [reflexivity|]. rewrite IH. reflexivity.
Qed.

Lemma row_of_entries (i : Z) (E : list (Z * (Z * Q))) :
  row_of i (map fst E) (map (fun e => fst (snd e)) E)
         (map (fun e => snd (snd e)) E)
  = map snd (filter (fun e => fst e =? i) E).
Proof.
  unfold row_of. rewrite combine3_map.
  replace (map (fun e : Z * (Z * Q) => (fst e, (fst (snd e), snd (snd e)))) E)
    with E; [reflexivity|].
  induction E as [|[r [c v]] E IH]; simpl; [reflexivity|].
  rewrite <- IH. reflexivity.
Qed.

(** *** The row loop of [elementwise.conic_form] *)

Lemma map_const_repeat {A B : Type} (k : B) (l : list A) :
  map (fun _ => k) l = repeat k (List.length l).
Proof. induction l as [|a l IH]; simpl; [reflexivity|]. now rewrite IH. Qed.

Lemma rows_loop_closed (count : Z) (todo : list expressions.ScalarExpression) :
  forall (done pending : list Q) (rows cols : list Z) (vals : list Q),
    List.length pending = List.length todo ->
    elementwise.rows_loop count (Z.of_nat (List.length done)) todo
                          rows cols vals (done ++ pending)
    = Ok (rows ++ map fst (entries_from count (Z.of_nat (List.length done)) todo),
          cols ++ map (fun e => fst (snd e))
                      (entries_from count (Z.of_nat (List.length done)) todo),
          vals ++ map (fun e => snd (snd e))
                      (entries_from count (Z.of_nat (List.length done)) todo),
          done ++ map (fun se => (- expressions.offset se)%Q) todo).
Proof.
  induction todo as [|se rest IH]; intros done pending rows cols vals Hlen.
  - destruct pending; [|discriminate]. simpl. now rewrite !app_nil_r.
  - destruct pending as [|old pending]; [discriminate|].
    injection Hlen as Hlen.
    cbn [elementwise.rows_loop entries_from].
    rewrite setitem_at. cbn [bind].
    pose proof (fun r c v =>
                  IH (done ++ [(- expressions.offset se)%Q]) pending r c v Hlen)
      as IH'.
    rewrite length_app_one, <- !app_cons_assoc in IH'.
    unfold row_entries.
    destruct (expressions.atoms_to_coeffs se) as [|ac l] eqn:Hat.
    + cbn [List.length Nat.eqb].
      rewrite IH'.
      cbn [map app fst snd].
      rewrite <- !app_assoc. reflexivity.
    + cbn [List.length Nat.eqb].
      rewrite IH'.
      rewrite !map_app, !map_map. cbn [fst snd].
      rewrite <- !app_assoc. cbn [map app].
      change (S (List.length l)) with (List.length (ac :: l)).
      rewrite <- (map_const_repeat (Z.of_nat (List.length done)) (ac :: l)).
      reflexivity.
Qed.

Lemma conic_form_closed (self : elementwise.ElementwiseConstraint)
    (g : base.Globals) :
  elementwise.epigraph_checked self = true ->
  elementwise.operator self = "=="%string
  \/ elementwise.operator self = "<="%string ->
  elementwise.conic_form self g
  = let E := entries_from (base.curr_variable_count g) 0
                          (elementwise.expr self) in
    Ok (A_vals (map (fun e => snd (snd e)) E),
        A_rows (map fst E),
        A_cols (map (fun e => fst (snd e)) E),
        b_vec (map (fun se => (- expressions.offset se)%Q)
                   (elementwise.expr self)),
        K_list [ {| cones.type := emitted_tag (elementwise.operator self);
                    cones.len :=
                      Z.of_nat (List.length (elementwise.expr self)) |} ],
        empty_list).
Proof.
  intros Hchk Hop. unfold elementwise.conic_form. rewrite Hchk. cbn [negb].
  assert (Hloop := rows_loop_closed (base.curr_variable_count g)
                     (elementwise.expr self) []
                     (np.empty (List.length (elementwise.expr self)))
                     [] [] []).
  cbn [List.length app Z.of_nat] in Hloop.
  rewrite Hloop by (unfold np.empty; apply repeat_length).
  unfold emitted_tag.
  destruct Hop as [Hop|Hop]; rewrite Hop; reflexivity.
Qed.

Lemma entries_from_rows_ge (count : Z) (todo : list expressions.ScalarExpression) :
  forall (j : Z) (e : Z * (Z * Q)),
    In e (entries_from count j todo) -> j <= fst e.
Proof.
  induction todo as [|se rest IH]; intros j e Hin; [destruct Hin|].
  cbn [entries_from] in Hin. apply in_app_or in Hin as [Hin|Hin].
  - unfold row_entries in Hin.
    destruct (expressions.atoms_to_coeffs se) as [|ac l].
    + destruct Hin as [<-|[]]. simpl. lia.
    + apply in_map_iff in Hin as [x [<- _]]. simpl. lia.
  - apply IH in Hin. lia.
Qed.

Lemma row_entries_row (count i : Z) (se : expressions.ScalarExpression)
    (e : Z * (Z * Q)) :
  In e (row_entries count i se) -> fst e = i.
Proof.
  unfold row_entries. destruct (expressions.atoms_to_coeffs se) as [|ac l].
  - intros [<-|[]]. reflexivity.
  - intros Hin. apply in_map_iff in Hin as [x [<- _]]. reflexivity.
Qed.

Lemma filter_all {A : Type} (f : A -> bool) (l : list A) :
  (forall a, In a l -> f a = true) -> filter f l = l.
Proof.
  induction l as [|a l IH]; intros H; simpl; [reflexivity|].
  rewrite (H a (or_introl eq_refl)), IH; [reflexivity|].
  intros a' Ha'. apply H. now right.
Qed.

Lemma filter_none {A : Type} (f : A -> bool) (l : list A) :
  (forall a, In a l -> f a = false) -> filter f l = [].
Proof.
  induction l as [|a l IH]; intros H; simpl; [reflexivity|].
  rewrite (H a (or_introl eq_refl)). apply IH.
  intros a' Ha'. apply H. now right.
Qed.

Lemma entries_from_row (count : Z) (todo : list expressions.ScalarExpression) :
  forall (j : Z) (i : nat) (se : expressions.ScalarExpression),
    nth_error todo i = Some se ->
    filter (fun e => fst e =? j + Z.of_nat i) (entries_from count j todo)
    = row_entries count (j + Z.of_nat i) se.
Proof.
  induction todo as [|se0 rest IH]; intros j i se Hnth.
  - destruct i; discriminate.
  - cbn [entries_from]. rewrite filter_app. destruct i as [|i].
    + injection Hnth as ->. cbn [Z.of_nat]. rewrite Z.add_0_r.
      rewrite (filter_all _ (row_entries count j se)).
      * rewrite filter_none; [apply app_nil_r|].
        intros e He. apply entries_from_rows_ge in He. apply Z.eqb_neq. lia.
      * intros e He. apply row_entries_row in He. apply Z.eqb_eq. lia.
    + cbn [nth_error] in Hnth. rewrite filter_none.
      * cbn [app].
        replace (j + Z.of_nat (S i)) with ((j + 1) + Z.of_nat i) by lia.
        now apply IH.
      * intros e He. apply row_entries_row in He. apply Z.eqb_neq. lia.
Qed.

(** ** Elementwise constraints: the claims *)

Section elementwise_claims.
Import base cones expressions elementwise.

Variable sub : Expression -> Expression -> Expression.

Lemma init_eq (lhs rhs : Expression) (g : Globals) :
  __init__ sub lhs rhs "==" g
  = Ok ({| id := _ELEMENTWISE_CONSTRAINT_ID_ g; lhs := lhs; rhs := rhs;
           initial_operator := "==";
           name := ("Elementwise["
                    ++ str (_ELEMENTWISE_CONSTRAINT_ID_ g) ++ "] : ")%string;
           expr := sub lhs rhs;
           operator := "=="; epigraph_checked := true |},
        next_constraint_id g).
Proof. reflexivity. Qed.

Lemma init_ge (lhs rhs : Expression) (g : Globals) :
  __init__ sub lhs rhs ">=" g
  = Ok ({| id := _ELEMENTWISE_CONSTRAINT_ID_ g; lhs := lhs; rhs := rhs;
           initial_operator := ">=";
           name := ("Elementwise["
                    ++ str (_ELEMENTWISE_CONSTRAINT_ID_ g) ++ "] : ")%string;
           expr := sub rhs lhs;
           operator := "<="; epigraph_checked := false |},
        next_constraint_id g).
Proof. reflexivity. Qed.

Lemma init_other (lhs rhs : Expression) (op : string) (g : Globals) :
  (op =? "==")%string = false ->
  (op =? ">=")%string = false ->
  __init__ sub lhs rhs op g
  = Ok ({| id := _ELEMENTWISE_CONSTRAINT_ID_ g; lhs := lhs; rhs := rhs;
           initial_operator := op;
           name := ("Elementwise["
                    ++ str (_ELEMENTWISE_CONSTRAINT_ID_ g) ++ "] : ")%string;
           expr := sub lhs rhs;
           operator := "<="; epigraph_checked := false |},
        next_constraint_id g).
Proof.
  intros H1 H2. unfold __init__. rewrite H1, H2. reflexivity.
Qed.

Lemma init_total (lhs rhs : Expression) (op : string) (g : Globals) :
  exists con g',
    __init__ sub lhs rhs op g = Ok (con, g')
    /\ (operator con = "=="%string \/ operator con = "<="%string)
    /\ epigraph_checked con = (op =? "==")%string.
Proof.
  unfold __init__. destruct (op =? "==")%string eqn:Heq.
  - eexists _, _. split; [reflexivity|]. split; [now left|reflexivity].
  - eexists _, _. split; [reflexivity|]. split; [now right|reflexivity].
Qed.


(** C3: [lhs >= rhs] and [rhs <= lhs] are stored as the same canonical
    constraint, expression [rhs - lhs] with operator [<=], and compile to
    the same fragment whatever the flag and the variable count; compiled,
    the cone list is one nonnegative orthant ['+'] of the expression's size
    (one zero cone ['0'] for an equality), and whatever operator token is
    given, the canonical operator is [==] or [<=]. *)
Theorem ge_and_le_compile_identically (lhs rhs : Expression)
    (g1 g2 : Globals) :
  exists con_ge con_le g1' g2',
    __init__ sub lhs rhs ">=" g1 = Ok (con_ge, g1')
    /\ __init__ sub rhs lhs "<=" g2 = Ok (con_le, g2')
    /\ expr con_ge = sub rhs lhs
    /\ expr con_le = sub rhs lhs
    /\ operator con_ge = "<="%string
    /\ operator con_le = "<="%string
    /\ (forall g, conic_form con_ge g = conic_form con_le g)
    /\ (forall flag g,
          conic_form (set_epigraph_checked flag con_ge) g
          = conic_form (set_epigraph_checked flag con_le) g)
    /\ (forall g, exists vals rows cols b,
          conic_form (set_epigraph_checked true con_ge) g
          = Ok (A_vals vals, A_rows rows, A_cols cols, b_vec b,
                K_list [ {| type := "+";
                            len := Z.of_nat (List.length (sub rhs lhs)) |} ],
                empty_list))
    /\ (forall g0 g, exists con_eq g0' vals rows cols b,
          __init__ sub lhs rhs "==" g0 = Ok (con_eq, g0')
          /\ conic_form con_eq g
             = Ok (A_vals vals, A_rows rows, A_cols cols, b_vec b,
                   K_list [ {| type := "0";
                               len := Z.of_nat (List.length (sub lhs rhs)) |} ],
                   empty_list))
    /\ (forall op g0, exists con g0',
          __init__ sub lhs rhs op g0 = Ok (con, g0')
          /\ (operator con = "=="%string \/ operator con = "<="%string)).
Proof.
  rewrite init_ge, (init_other rhs lhs "<=" g2) by reflexivity.
  eexists _, _, _, _.
  split; [reflexivity|]. split; [reflexivity|].
  cbn [expr operator].
  split; [reflexivity|]. split; [reflexivity|].
  split; [reflexivity|]. split; [reflexivity|].
  split; [reflexivity|]. split; [reflexivity|].
  split; [|split].
  - intros g. eexists _, _, _, _.
    rewrite conic_form_closed; cbn; [reflexivity|reflexivity|now right].
  - intros g0 g. rewrite init_eq. eexists _, _, _, _, _, _.
    split; [reflexivity|].
    rewrite conic_form_closed; cbn; [reflexivity|reflexivity|now left].
  - intros op g0. destruct (init_total lhs rhs op g0) as (con & g' & H & Hop & _).
    now exists con, g'.
Qed.

(** C4: [conic_form] raises its RuntimeError whenever [epigraph_checked] is
    false, and gives no fragment then; the flag is true right after the
    construction of an equality, whose [conic_form] returns a fragment, and
    false right after the construction of [<=] and [>=], whose
    [conic_form] therefore raises. *)
Theorem conic_form_requires_epigraph_check :
  (forall self g,
      epigraph_checked self = false ->
      conic_form self g
      = Raise (RuntimeError
                 "Cannot canonicalize without check for epigraph substitution."))
  /\ (forall lhs rhs g, exists con g',
        __init__ sub lhs rhs "==" g = Ok (con, g')
        /\ epigraph_checked con = true
        /\ forall g2, exists f, conic_form con g2 = Ok f)
  /\ (forall lhs rhs op g,
        op = "<="%string \/ op = ">="%string ->
        exists con g',
          __init__ sub lhs rhs op g = Ok (con, g')
          /\ epigraph_checked con = false
          /\ forall g2,
              conic_form con g2
              = Raise (RuntimeError
                         "Cannot canonicalize without check for epigraph substitution.")).
Proof.
  assert (Hguard : forall self g,
             epigraph_checked self = false ->
             conic_form self g
             = Raise (RuntimeError
                        "Cannot canonicalize without check for epigraph substitution.")).
  { intros self g H. unfold conic_form. rewrite H. reflexivity. }
  split; [exact Hguard|]. split.
  - intros lhs rhs g. rewrite init_eq. eexists _, _.
    split; [reflexivity|]. split; [reflexivity|].
    intros g2. eexists. rewrite conic_form_closed; cbn; [reflexivity|reflexivity|now left].
  - intros lhs rhs op g [->| ->].
    + rewrite init_other by reflexivity. eexists _, _.
      split; [reflexivity|]. split; [reflexivity|].
      intros g2. now apply Hguard.
    + rewrite init_ge. eexists _, _.
      split; [reflexivity|]. split; [reflexivity|].
      intros g2. now apply Hguard.
Qed.

(** C10: the class-level curvature check is off, so the construction of an
    equality never raises, whatever the stored expression, and the
    constraint it builds answers [is_affine() = True]; [is_affine] looks at
    the operator of an equality only, never at its expression. *)
Theorem equality_is_affine_regardless (lhs rhs : Expression) (g : Globals) :
  _CURVATURE_CHECK_ = false
  /\ (exists con g',
        __init__ sub lhs rhs "==" g = Ok (con, g')
        /\ expr con = sub lhs rhs
        /\ is_affine con = true)
  /\ (forall con, operator con = "=="%string -> is_affine con = true).
Proof.
  split; [reflexivity|]. split.
  - rewrite init_eq. eexists _, _. repeat split.
  - intros con H. unfold is_affine. rewrite H. reflexivity.
Qed.

End elementwise_claims.

(** C3 at the expressions [(2 v7 + 1, 5)] and [(0, 0)]. *)
Lemma ge_and_le_compile_identically_witness :
  exists con_ge con_le g1' g2',
    elementwise.__init__ algebra.sub examples.mixed_expression examples.zero2
                         ">=" examples.g8 = Ok (con_ge, g1')
    /\ elementwise.__init__ algebra.sub examples.zero2
                            examples.mixed_expression "<=" examples.g8
       = Ok (con_le, g2')
    /\ elementwise.expr con_le = elementwise.expr con_ge
    /\ forall g, elementwise.conic_form
                   (elementwise.set_epigraph_checked true con_ge) g
                 = elementwise.conic_form
                     (elementwise.set_epigraph_checked true con_le) g.
Proof.
  destruct (ge_and_le_compile_identically algebra.sub
              examples.mixed_expression examples.zero2 examples.g8 examples.g8)
    as (con_ge & con_le & g1' & g2' & H1 & H2 & Hge & Hle & _ & _ & _ & Hcf & _).
  exists con_ge, con_le, g1', g2'.
  split; [exact H1|]. split; [exact H2|]. split.
  - rewrite Hge. exact Hle.
  - intros g. apply Hcf.
Defined.

(** C4 on the fresh inequality [(2 v7 + 1, 5) <= (0, 0)]. *)
Lemma conic_form_requires_epigraph_check_witness :
  exists con g',
    elementwise.__init__ algebra.sub examples.mixed_expression examples.zero2
                         "<=" examples.g8 = Ok (con, g')
    /\ elementwise.epigraph_checked con = false
    /\ elementwise.conic_form con g'
       = Raise (RuntimeError
                  "Cannot canonicalize without check for epigraph substitution.").
Proof.
  destruct (conic_form_requires_epigraph_check algebra.sub) as (_ & _ & H).
  destruct (H examples.mixed_expression examples.zero2 "<="%string examples.g8
              (or_introl eq_refl)) as (con & g' & Hinit & Hflag & Hraise).
  exists con, g'. split; [exact Hinit|]. split; [exact Hflag|]. apply Hraise.
Defined.

(** C10 on the equality [exp(3 v7 + 5) == 0], whose expression is not
    affine. *)
Lemma equality_is_affine_regardless_witness :
  expressions.is_affine
    (algebra.sub examples.exp_expression [algebra.const 0%Q]) = false
  /\ exists con g',
      elementwise.__init__ algebra.sub examples.exp_expression
                           [algebra.const 0%Q] "==" examples.g8 = Ok (con, g')
      /\ elementwise.expr con
         = algebra.sub examples.exp_expression [algebra.const 0%Q]
      /\ elementwise.is_affine con = true.
Proof.
  split; [reflexivity|].
  exact (proj1 (proj2 (equality_is_affine_regardless algebra.sub
                         examples.exp_expression [algebra.const 0%Q]
                         examples.g8))).
Defined.

(** *** Sign flip and placeholder of [elementwise.conic_form] *)

Lemma nth_error_map_some {A B : Type} (f : A -> B) (l : list A) (i : nat)
    (a : A) :
  nth_error l i = Some a -> nth_error (map f l) i = Some (f a).
Proof.
  intros H. rewrite nth_error_map, H. reflexivity.
Qed.

Lemma entries_from_in (count : Z) (todo : list expressions.ScalarExpression) :
  forall (j : Z) (e : Z * (Z * Q)),
    In e (entries_from count j todo) ->
    exists (i : nat) (se : expressions.ScalarExpression),
      nth_error todo i = Some se
      /\ In e (row_entries count (j + Z.of_nat i) se).
Proof.
  induction todo as [|se0 rest IH]; intros j e Hin; [destruct Hin|].
  cbn [entries_from] in Hin. apply in_app_or in Hin as [Hin|Hin].
  - exists 0%nat, se0. split; [reflexivity|].
    cbn [Z.of_nat]. now rewrite Z.add_0_r.
  - apply IH in Hin as (i & se & Hnth & Hin).
    exists (S i), se. split; [exact Hnth|].
    replace (j + Z.of_nat (S i)) with (j + 1 + Z.of_nat i) by lia.
    exact Hin.
Qed.

(** C5: when [conic_form] succeeds (flag set, canonical operator [==] or
    [<=]) the cone is ['0'] of size m for [==] and ['+'] of size m for [<=],
    the offset vector is the negated offsets of the scalar expressions, and
    the entries of a row whose expression has atoms are, in order, the atoms'
    ids with the negated stored coefficients; every emitted entry belongs to
    a row of the expression and is such a negated coefficient, or is the
    zero of a row without atoms. *)
Theorem conic_form_flips_signs (self : elementwise.ElementwiseConstraint)
    (g : base.Globals) :
  elementwise.epigraph_checked self = true ->
  elementwise.operator self = "=="%string
  \/ elementwise.operator self = "<="%string ->
  exists (vals : list Q) (rows cols : list Z) (b : list Q),
    elementwise.conic_form self g
    = Ok (A_vals vals, A_rows rows, A_cols cols, b_vec b,
          K_list [ {| cones.type :=
                        if (elementwise.operator self =? "==")%string
                        then "0"%string else "+"%string;
                      cones.len :=
                        Z.of_nat (List.length (elementwise.expr self)) |} ],
          empty_list)
    /\ List.length rows = List.length vals
    /\ List.length cols = List.length vals
    /\ b = map (fun se => (- expressions.offset se)%Q) (elementwise.expr self)
    /\ (forall (i : nat) (se : expressions.ScalarExpression),
          nth_error (elementwise.expr self) i = Some se ->
          nth_error b i = Some (- expressions.offset se)%Q
          /\ (expressions.atoms_to_coeffs se <> [] ->
              row_of (Z.of_nat i) rows cols vals
              = map (fun ac => (expressions.atom_id (fst ac), (- snd ac)%Q))
                    (expressions.atoms_to_coeffs se)))
    /\ forall (r col : Z) (v : Q),
        In (r, (col, v)) (combine rows (combine cols vals)) ->
        exists (i : nat) (se : expressions.ScalarExpression),
          r = Z.of_nat i
          /\ nth_error (elementwise.expr self) i = Some se
          /\ ((expressions.atoms_to_coeffs se = []
               /\ col = base.curr_variable_count g - 1 /\ v = 0%Q)
              \/ exists a co,
                  In (a, co) (expressions.atoms_to_coeffs se)
                  /\ col = expressions.atom_id a /\ v = (- co)%Q).
Proof.
  intros Hchk Hop. eexists _, _, _, _.
  split; [rewrite (conic_form_closed self g Hchk Hop); reflexivity|].
  split; [now rewrite !length_map|]. split; [now rewrite !length_map|].
  split; [reflexivity|].
  split; cycle 1.
  { intros r col v Hin. rewrite combine3_map in Hin.
    apply in_map_iff in Hin as ([r' [c' v']] & Heq & Hin).
    cbn [fst snd] in Heq. injection Heq as -> -> ->.
    apply entries_from_in in Hin as (i & se & Hnth & Hin).
    exists i, se. rewrite Z.add_0_l in Hin.
    unfold row_entries in Hin.
    destruct (expressions.atoms_to_coeffs se) as [|ac l] eqn:Hat.
    - destruct Hin as [Heq|[]]. injection Heq as <- <- <-.
      split; [reflexivity|]. split; [exact Hnth|]. left. now repeat split.
    - apply in_map_iff in Hin as ([a co] & Heq & Hin).
      cbn [fst snd] in Heq. injection Heq as <- <- <-.
      split; [reflexivity|]. split; [exact Hnth|]. right.
      exists a, co. now repeat split. }
  intros i se Hnth. split.
  - exact (nth_error_map_some (fun s => (- expressions.offset s)%Q) _ _ _ Hnth).
  - intros Hne. rewrite row_of_entries.
    rewrite <- (Z.add_0_l (Z.of_nat i)).
    rewrite (entries_from_row _ _ 0 i se Hnth).
    unfold row_entries.
    destruct (expressions.atoms_to_coeffs se) as [|ac l]; [now destruct Hne|].
    rewrite map_map. reflexivity.
Qed.

(** C5 on [(2 v7 + 1, 5) <= 0]: row 0 emits the coefficient -2 at column 7
    and the offset -1. *)
Lemma conic_form_flips_signs_witness :
  exists (vals : list Q) (rows cols : list Z) (b : list Q),
    elementwise.conic_form examples.mixed_con examples.g8
    = Ok (A_vals vals, A_rows rows, A_cols cols, b_vec b,
          K_list [ {| cones.type := "+"; cones.len := 2 |} ], empty_list)
    /\ nth_error b 0 = Some (- (1))%Q
    /\ row_of 0 rows cols vals = [(7, (- (2))%Q)].
Proof.
  destruct (conic_form_flips_signs examples.mixed_con examples.g8 eq_refl
              (or_intror eq_refl))
    as (vals & rows & cols & b & Hcf & _ & _ & _ & Hrow & _).
  exists vals, rows, cols, b. split; [exact Hcf|].
  destruct (Hrow 0%nat _ eq_refl) as [Hb Hr]. split; [exact Hb|].
  apply Hr. discriminate.
Defined.

(** C8: a row whose scalar expression has no atoms still emits exactly one
    entry, of value 0, in the column [curr_variable_count() - 1], which is
    the id of the variable allocated last; its offset entry is the negated
    offset. *)
Theorem conic_form_constant_row (self : elementwise.ElementwiseConstraint)
    (g : base.Globals) (i : nat) (se : expressions.ScalarExpression) :
  elementwise.epigraph_checked self = true ->
  elementwise.operator self = "=="%string
  \/ elementwise.operator self = "<="%string ->
  nth_error (elementwise.expr self) i = Some se ->
  expressions.atoms_to_coeffs se = [] ->
  exists (vals : list Q) (rows cols : list Z) (b : list Q) (K : list cones.Cone),
    elementwise.conic_form self g
    = Ok (A_vals vals, A_rows rows, A_cols cols, b_vec b, K_list K, empty_list)
    /\ row_of (Z.of_nat i) rows cols vals
       = [(base.curr_variable_count g - 1, 0%Q)]
    /\ nth_error b i = Some (- expressions.offset se)%Q
    /\ forall g0, g = snd (base.Variable_scalar g0) ->
                  base.curr_variable_count g - 1
                  = base.id (fst (base.Variable_scalar g0)).
Proof.
  intros Hchk Hop Hnth Hat. eexists _, _, _, _, _.
  split; [rewrite (conic_form_closed self g Hchk Hop); reflexivity|].
  split; [|split].
  - rewrite row_of_entries.
    rewrite <- (Z.add_0_l (Z.of_nat i)).
    rewrite (entries_from_row _ _ 0 i se Hnth).
    unfold row_entries. rewrite Hat. reflexivity.
  - exact (nth_error_map_some (fun s => (- expressions.offset s)%Q) _ _ _ Hnth).
  - intros g0 ->. unfold base.Variable_scalar, base.curr_variable_count.
    cbn. lia.
Qed.

(** C8 on [(2 v7 + 1, 5) <= 0] with eight variables allocated: the constant
    row 1 emits the value 0 at column 7 and the offset -5. *)
Lemma conic_form_constant_row_witness :
  exists (vals : list Q) (rows cols : list Z) (b : list Q) (K : list cones.Cone),
    elementwise.conic_form examples.mixed_con examples.g8
    = Ok (A_vals vals, A_rows rows, A_cols cols, b_vec b, K_list K, empty_list)
    /\ row_of 1 rows cols vals = [(7, 0%Q)]
    /\ nth_error b 1 = Some (- (5))%Q.
Proof.
  destruct (conic_form_constant_row examples.mixed_con examples.g8 1%nat
              (algebra.const 5%Q) eq_refl (or_intror eq_refl) eq_refl eq_refl)
    as (vals & rows & cols & b & K & Hcf & Hrow & Hb & _).
  exists vals, rows, cols, b, K. split; [exact Hcf|]. split; [exact Hrow|].
  exact Hb.
Defined.

(** ** Epigraph atoms *)

Lemma exp_ensure_args (self : exp.Exponential) (g : base.Globals) :
  exp.args (snd (fst (exp.ensure_aux_var self g))) = exp.args self
  /\ exp.aux_var (snd (fst (exp.ensure_aux_var self g)))
     = Some (fst (fst (exp.ensure_aux_var self g))).
Proof.
  unfold exp.ensure_aux_var. destruct (exp.aux_var self) eqn:H; cbn; auto.
Qed.

Lemma exp_epigraph_closed (self : exp.Exponential) (g : base.Globals) :
  exp.epigraph_conic_form self g
  = let av := fst (fst (exp.ensure_aux_var self g)) in
    let self' := snd (fst (exp.ensure_aux_var self g)) in
    let g' := snd (exp.ensure_aux_var self g) in
    let E := map (fun vc => (0, (base.id (fst vc), snd vc)))
                 (base.arg_terms (exp.args self))
             ++ [(1, (base.id av, 1%Q));
                 (2, (base.curr_variable_count g' - 1, 0%Q))] in
    Ok ((A_vals (map (fun e => snd (snd e)) E),
         A_rows (map fst E),
         A_cols (map (fun e => fst (snd e)) E),
         b_vec [base.arg_offset (exp.args self); 0%Q; 1%Q],
         K_list [ {| cones.type := "e"; cones.len := 3 |} ],
         aux av), self', g').
Proof.
  unfold exp.epigraph_conic_form.
  destruct (exp_ensure_args self g) as [Hargs _].
  destruct (exp.ensure_aux_var self g) as [[av self'] g']. cbn [fst snd] in *.
  rewrite Hargs. cbn [np.zeros repeat np.setitem Z.ltb Z.compare Z.to_nat
                      np.setitem_nat bind Pos.to_nat Pos.iter_op Nat.add].
  cbv zeta. rewrite !map_app, !map_map. cbn [map fst snd app].
  rewrite map_const_repeat, <- !app_assoc. reflexivity.
Qed.

Lemma args_loop_closed (todo : list base.ParsedArg) :
  forall (done p1 p2 : list Q) (rows cols : list Z) (vals : list Q),
    List.length p1 = List.length todo ->
    norms.args_loop (Z.of_nat (List.length done)) todo rows cols vals
                    (done ++ p1 ++ p2)
    = Ok (rows ++ map fst
                      (arg_entries_from (Z.of_nat (List.length done)) todo),
          cols ++ map (fun e => fst (snd e))
                      (arg_entries_from (Z.of_nat (List.length done)) todo),
          vals ++ map (fun e => snd (snd e))
                      (arg_entries_from (Z.of_nat (List.length done)) todo),
          done ++ map base.arg_offset todo ++ p2).
Proof.
  induction todo as [|arg rest IH]; intros done p1 p2 rows cols vals Hlen.
  - destruct p1; [|discriminate]. simpl. now rewrite !app_nil_r.
  - destruct p1 as [|old p1]; [discriminate|].
    injection Hlen as Hlen.
    cbn [norms.args_loop arg_entries_from app].
    rewrite setitem_at. cbn [bind].
    pose proof (fun r c v =>
                  IH (done ++ [base.arg_offset arg]) p1 p2 r c v Hlen) as IH'.
    rewrite length_app_one, <- !app_cons_assoc in IH'.
    rewrite IH'. unfold arg_entries.
    rewrite !map_app, !map_map. cbn [fst snd map app].
    rewrite map_const_repeat, <- !app_assoc. reflexivity.
Qed.

Lemma norms_ensure_args (self : norms.Vector2Norm) (g : base.Globals) :
  norms.args (snd (fst (norms.ensure_aux_var self g))) = norms.args self
  /\ norms.aux_var (snd (fst (norms.ensure_aux_var self g)))
     = Some (fst (fst (norms.ensure_aux_var self g))).
Proof.
  unfold norms.ensure_aux_var. destruct (norms.aux_var self) eqn:H; cbn; auto.
Qed.

Lemma norms_epigraph_closed (self : norms.Vector2Norm) (g : base.Globals) :
  norms.epigraph_conic_form self g
  = let av := fst (fst (norms.ensure_aux_var self g)) in
    let self' := snd (fst (norms.ensure_aux_var self g)) in
    let g' := snd (norms.ensure_aux_var self g) in
    let E := (0, (base.id av, 1%Q)) :: arg_entries_from 0 (norms.args self) in
    Ok ((A_rows (map fst E),
         A_cols (map (fun e => fst (snd e)) E),
         A_vals (map (fun e => snd (snd e)) E),
         b_vec (map base.arg_offset (norms.args self) ++ [0%Q]),
         K_list [ {| cones.type := "S";
                     cones.len :=
                       Z.of_nat (List.length (norms.args self) + 1) |} ],
         aux av), self', g').
Proof.
  unfold norms.epigraph_conic_form.
  destruct (norms_ensure_args self g) as [Hargs _].
  destruct (norms.ensure_aux_var self g) as [[av self'] g']. cbn [fst snd] in *.
  rewrite Hargs.
  pose proof (args_loop_closed (norms.args self) []
                (repeat 0%Q (List.length (norms.args self))) [0%Q]
                [0] [base.id av] [1%Q] (repeat_length _ _)) as H.
  cbn [List.length Z.of_nat app] in H.
  unfold np.zeros. rewrite repeat_app. cbn [repeat].
  rewrite H. reflexivity.
Qed.

Lemma exp_rows (terms : list (base.ScalarVariable * Q)) (a c : Z) (i : Z) :
  map snd
      (filter (fun e : Z * (Z * Q) => fst e =? i)
              (map (fun vc => (0, (base.id (fst vc), snd vc))) terms
               ++ [(1, (a, 1%Q)); (2, (c, 0%Q))]))
  = (if i =? 0 then map (fun vc => (base.id (fst vc), snd vc)) terms else [])
    ++ (if i =? 1 then [(a, 1%Q)] else [])
    ++ (if i =? 2 then [(c, 0%Q)] else []).
Proof.
  rewrite filter_app, map_app. f_equal.
  - destruct (Z.eqb_spec i 0) as [->|Hne].
    + rewrite filter_all by (intros e He; apply in_map_iff in He as [x [<- _]];
                             reflexivity).
      now rewrite map_map.
    + rewrite filter_none; [reflexivity|].
      intros e He. apply in_map_iff in He as [x [<- _]]. cbn [fst].
      apply Z.eqb_neq. lia.
  - cbn [filter fst]. rewrite (Z.eqb_sym 1 i), (Z.eqb_sym 2 i).
    destruct (i =? 1), (i =? 2); reflexivity.
Qed.

(** C6: the fragment of an Exponential is one exponential cone of size 3;
    row 0 carries the argument's variable coefficients and its constant term
    as offset, row 1 the auxiliary variable with coefficient 1 and offset 0,
    row 2 one zero-valued coefficient and offset 1, so that the affine image
    is the triple (x, auxiliary, 1). *)
Theorem exponential_epigraph_conic_form (self : exp.Exponential)
    (g : base.Globals) :
  exists (vals : list Q) (rows cols : list Z) (b : list Q)
         (av : base.ScalarVariable) (self' : exp.Exponential)
         (g' : base.Globals),
    exp.epigraph_conic_form self g
    = Ok ((A_vals vals, A_rows rows, A_cols cols, b_vec b,
           K_list [ {| cones.type := "e"; cones.len := 3 |} ], aux av),
          self', g')
    /\ exp.aux_var self' = Some av
    /\ List.length rows = List.length vals
    /\ List.length cols = List.length vals
    /\ row_of 0 rows cols vals
       = map (fun vc => (base.id (fst vc), snd vc))
             (base.arg_terms (exp.args self))
    /\ row_of 1 rows cols vals = [(base.id av, 1%Q)]
    /\ row_of 2 rows cols vals = [(base.curr_variable_count g' - 1, 0%Q)]
    /\ (forall i, i <> 0 -> i <> 1 -> i <> 2 -> row_of i rows cols vals = [])
    /\ b = [base.arg_offset (exp.args self); 0%Q; 1%Q]
    /\ forall x : Z -> Q,
        Forall2 Qeq (affine_image rows cols vals b x)
                [arg_value (exp.args self) x; x (base.id av); 1%Q].
Proof.
  rewrite exp_epigraph_closed. cbv zeta.
  destruct (exp_ensure_args self g) as [_ Haux].
  set (av := fst (fst (exp.ensure_aux_var self g))) in *.
  set (self' := snd (fst (exp.ensure_aux_var self g))) in *.
  set (g' := snd (exp.ensure_aux_var self g)).
  set (E := map (fun vc => (0, (base.id (fst vc), snd vc)))
                (base.arg_terms (exp.args self))
            ++ [(1, (base.id av, 1%Q));
                (2, (base.curr_variable_count g' - 1, 0%Q))]).
  assert (Hrow : forall i,
             row_of i (map fst E) (map (fun e => fst (snd e)) E)
                    (map (fun e => snd (snd e)) E)
             = (if i =? 0
                then map (fun vc => (base.id (fst vc), snd vc))
                         (base.arg_terms (exp.args self))
                else [])
               ++ (if i =? 1 then [(base.id av, 1%Q)] else [])
               ++ (if i =? 2
                   then [(base.curr_variable_count g' - 1, 0%Q)] else [])).
  { intros i. rewrite row_of_entries. apply exp_rows. }
  exists (map (fun e => snd (snd e)) E), (map fst E),
    (map (fun e => fst (snd e)) E),
    [base.arg_offset (exp.args self); 0%Q; 1%Q], av, self', g'.
  split; [reflexivity|].
  split; [exact Haux|].
  split; [now rewrite !length_map|]. split; [now rewrite !length_map|].
  split; [rewrite Hrow; cbn; now rewrite app_nil_r|].
  split; [rewrite Hrow; reflexivity|].
  split; [rewrite Hrow; reflexivity|].
  split.
  { intros i H0 H1 H2. rewrite Hrow.
    apply Z.eqb_neq in H0, H1, H2. now rewrite H0, H1, H2. }
  split; [reflexivity|].
  intros x. unfold affine_image. cbn [image_from].
  change (0 + 1) with 1. change (1 + 1) with 2. rewrite !Hrow.
  cbn [Z.eqb Pos.eqb app]. rewrite app_nil_r.
  constructor; [|constructor; [|constructor; [|constructor]]].
  - unfold arg_value. reflexivity.
  - cbn [dot fold_right fst snd]. ring.
  - cbn [dot fold_right fst snd]. ring.
Qed.

Lemma arg_entries_from_rows_gt (todo : list base.ParsedArg) :
  forall (j : Z) (e : Z * (Z * Q)),
    In e (arg_entries_from j todo) -> j + 1 <= fst e.
Proof.
  induction todo as [|arg rest IH]; intros j e Hin; [destruct Hin|].
  cbn [arg_entries_from] in Hin. apply in_app_or in Hin as [Hin|Hin].
  - apply in_map_iff in Hin as [x [<- _]]. simpl. lia.
  - apply IH in Hin. lia.
Qed.

Lemma arg_entries_from_row (todo : list base.ParsedArg) :
  forall (j : Z) (i : nat) (arg : base.ParsedArg),
    nth_error todo i = Some arg ->
    filter (fun e => fst e =? j + Z.of_nat i + 1) (arg_entries_from j todo)
    = arg_entries (j + Z.of_nat i) arg.
Proof.
  induction todo as [|arg0 rest IH]; intros j i arg Hnth.
  - destruct i; discriminate.
  - cbn [arg_entries_from]. rewrite filter_app. destruct i as [|i].
    + injection Hnth as ->. cbn [Z.of_nat]. rewrite Z.add_0_r.
      rewrite (filter_all _ (arg_entries j arg)).
      * rewrite filter_none; [apply app_nil_r|].
        intros e He. apply arg_entries_from_rows_gt in He.
        apply Z.eqb_neq. lia.
      * intros e He. apply in_map_iff in He as [x [<- _]]. apply Z.eqb_eq.
        reflexivity.
    + cbn [nth_error] in Hnth. rewrite filter_none.
      * cbn [app].
        replace (j + Z.of_nat (S i)) with ((j + 1) + Z.of_nat i) by lia.
        now apply IH.
      * intros e He. apply in_map_iff in He as [x [<- _]]. apply Z.eqb_neq.
        cbn [fst]. lia.
Qed.

(** C1: what [Vector2Norm.epigraph_conic_form] returns.  The tuple is in the
    order (row indices, column indices, coefficients, offsets, cones,
    auxiliary variable); the cone list is one second-order cone of size
    [len(x) + 1]; row 0 holds the auxiliary variable with coefficient 1 and
    row [i + 1] the coefficients of argument [i]; but the offset of argument
    [i] is written to coordinate [i], and the last coordinate stays 0.  On
    the single argument [3 v7 + 5] the offsets are [(5, 0)] and the affine
    image is [(aux + 5, 3 v7)], where the cone (aux, x) needs
    [(aux, 3 v7 + 5)]. *)
Theorem vector2norm_epigraph_conic_form_as_written :
  (forall (self : norms.Vector2Norm) (g : base.Globals),
      exists (rows cols : list Z) (vals : list Q) (av : base.ScalarVariable)
             (self' : norms.Vector2Norm) (g' : base.Globals),
        norms.epigraph_conic_form self g
        = Ok ((A_rows rows, A_cols cols, A_vals vals,
               b_vec (map base.arg_offset (norms.args self) ++ [0%Q]),
               K_list [ {| cones.type := "S";
                           cones.len :=
                             Z.of_nat (List.length (norms.args self) + 1) |} ],
               aux av), self', g')
        /\ row_of 0 rows cols vals = [(base.id av, 1%Q)]
        /\ forall (i : nat) (arg : base.ParsedArg),
            nth_error (norms.args self) i = Some arg ->
            row_of (Z.of_nat i + 1) rows cols vals
            = map (fun vc => (base.id (fst vc), snd vc)) (base.arg_terms arg))
  /\ (let '(atom, g1) := norms.__init__ [examples.arg_3v7_plus_5] examples.g8 in
      exists atom' g2,
        norms.epigraph_conic_form atom g1
        = Ok ((A_rows [0; 1], A_cols [8; 7], A_vals [1%Q; 3%Q],
               b_vec [5%Q; 0%Q],
               K_list [ {| cones.type := "S"; cones.len := 2 |} ],
               aux {| base.id := 8 |}), atom', g2))
  /\ (forall x : Z -> Q,
        Forall2 Qeq (affine_image [0; 1] [8; 7] [1%Q; 3%Q] [5%Q; 0%Q] x)
                [(x 8%Z + 5)%Q; (3 * x 7%Z)%Q]).
Proof.
  split; [|split].
  - intros self g. rewrite norms_epigraph_closed. cbv zeta.
    set (av := fst (fst (norms.ensure_aux_var self g))).
    set (E := (0, (base.id av, 1%Q)) :: arg_entries_from 0 (norms.args self)).
    exists (map fst E), (map (fun e => fst (snd e)) E),
      (map (fun e => snd (snd e)) E), av,
      (snd (fst (norms.ensure_aux_var self g))),
      (snd (norms.ensure_aux_var self g)).
    split; [reflexivity|]. split.
    + rewrite row_of_entries. unfold E. cbn [filter fst Z.eqb map snd].
      rewrite filter_none; [reflexivity|].
      intros e He. apply arg_entries_from_rows_gt in He.
      apply Z.eqb_neq. lia.
    + intros i arg Hnth. rewrite row_of_entries. unfold E.
      cbn [filter fst].
      destruct (Z.eqb_spec 0 (Z.of_nat i + 1)) as [Heq|_]; [lia|].
      replace (Z.of_nat i + 1) with (0 + Z.of_nat i + 1) by lia.
      rewrite (arg_entries_from_row _ 0 i arg Hnth).
      unfold arg_entries. rewrite map_map. reflexivity.
  - cbn. eexists _, _. reflexivity.
  - intros x. unfold affine_image. cbn.
    constructor; [|constructor; [|constructor]]; ring.
Qed.

Lemma exp_ensure_idem (self : exp.Exponential) (g g2 : base.Globals) :
  exp.ensure_aux_var (snd (fst (exp.ensure_aux_var self g))) g2
  = (fst (fst (exp.ensure_aux_var self g)),
     snd (fst (exp.ensure_aux_var self g)), g2).
Proof.
  unfold exp.ensure_aux_var. destruct (exp.aux_var self) eqn:H; cbn.
  - now rewrite H.
  - reflexivity.
Qed.

Lemma norms_ensure_idem (self : norms.Vector2Norm) (g g2 : base.Globals) :
  norms.ensure_aux_var (snd (fst (norms.ensure_aux_var self g))) g2
  = (fst (fst (norms.ensure_aux_var self g)),
     snd (fst (norms.ensure_aux_var self g)), g2).
Proof.
  unfold norms.ensure_aux_var. destruct (norms.aux_var self) eqn:H; cbn.
  - now rewrite H.
  - reflexivity.
Qed.

(** C9: the auxiliary variable of an atom is [None] after construction, is
    allocated by the first [epigraph_conic_form] (its id is the variable
    count at that call) and stored on the atom; every later call allocates
    nothing and returns that same auxiliary variable.  A [Vector2Norm]
    returns the very output of the first call at every later call.  An
    [Exponential] returns it up to the column of the zero placeholder entry
    of row 2, which is the variable count at the call minus 1: the output
    equals the first one exactly when the variable count is the one the
    first call left, that is, when no scalar variable was allocated in
    between. *)
Theorem epigraph_conic_form_caches_aux_var :
  (forall (x : base.ParsedArg) (g : base.Globals),
      exp.aux_var (fst (exp.__init__ x g)) = None)
  /\ (forall (xs : list base.ParsedArg) (g : base.Globals),
        norms.aux_var (fst (norms.__init__ xs g)) = None)
  /\ (forall (self : exp.Exponential) (g : base.Globals),
        exists out self1 g1 av vals rows cols b K,
          exp.epigraph_conic_form self g = Ok (out, self1, g1)
          /\ out = (A_vals vals, A_rows rows,
                    A_cols (cols ++ [base.curr_variable_count g1 - 1]),
                    b_vec b, K_list K, aux av)
          /\ aux_of out = Some av
          /\ exp.aux_var self1 = Some av
          /\ match exp.aux_var self with
             | None => av = {| base.id := base.curr_variable_count g |}
                       /\ base.curr_variable_count g1
                          = base.curr_variable_count g + 1
             | Some v => av = v /\ g1 = g
             end
          /\ exp.epigraph_conic_form self1 g1 = Ok (out, self1, g1)
          /\ forall g2, exists out2,
              exp.epigraph_conic_form self1 g2 = Ok (out2, self1, g2)
              /\ aux_of out2 = Some av
              /\ out2 = (A_vals vals, A_rows rows,
                         A_cols (cols ++ [base.curr_variable_count g2 - 1]),
                         b_vec b, K_list K, aux av)
              /\ (out2 = out
                  <-> base.curr_variable_count g2
                      = base.curr_variable_count g1))
  /\ (forall (self : norms.Vector2Norm) (g : base.Globals),
        exists out self1 g1 av,
          norms.epigraph_conic_form self g = Ok (out, self1, g1)
          /\ aux_of out = Some av
          /\ norms.aux_var self1 = Some av
          /\ match norms.aux_var self with
             | None => av = {| base.id := base.curr_variable_count g |}
                       /\ base.curr_variable_count g1
                          = base.curr_variable_count g + 1
             | Some v => av = v /\ g1 = g
             end
          /\ norms.epigraph_conic_form self1 g1 = Ok (out, self1, g1)
          /\ forall g2,
              norms.epigraph_conic_form self1 g2 = Ok (out, self1, g2)).
Proof.
  split; [reflexivity|]. split; [reflexivity|]. split.
  - intros self g.
    destruct (exp_ensure_args self g) as [Hargs Haux].
    pose proof (exp_ensure_idem self g) as Hidem.
    assert (Hfirst : match exp.aux_var self with
                     | None =>
                         fst (fst (exp.ensure_aux_var self g))
                         = {| base.id := base.curr_variable_count g |}
                         /\ base.curr_variable_count
                              (snd (exp.ensure_aux_var self g))
                            = base.curr_variable_count g + 1
                     | Some v =>
                         fst (fst (exp.ensure_aux_var self g)) = v
                         /\ snd (exp.ensure_aux_var self g) = g
                     end).
    { unfold exp.ensure_aux_var. destruct (exp.aux_var self); cbn; auto. }
    assert (Hlater : forall g2,
               exp.epigraph_conic_form
                 (snd (fst (exp.ensure_aux_var self g))) g2
               = Ok ((A_vals (map snd (base.arg_terms (exp.args self))
                              ++ [1%Q; 0%Q]),
                      A_rows (map (fun _ => 0) (base.arg_terms (exp.args self))
                              ++ [1; 2]),
                      A_cols ((map (fun vc => base.id (fst vc))
                                   (base.arg_terms (exp.args self))
                               ++ [base.id
                                     (fst (fst (exp.ensure_aux_var self g)))])
                              ++ [base.curr_variable_count g2 - 1]),
                      b_vec [base.arg_offset (exp.args self); 0%Q; 1%Q],
                      K_list [ {| cones.type := "e"; cones.len := 3 |} ],
                      aux (fst (fst (exp.ensure_aux_var self g)))),
                     snd (fst (exp.ensure_aux_var self g)), g2)).
    { intros g2. rewrite exp_epigraph_closed. cbv zeta.
      rewrite (Hidem g2), Hargs. cbn [fst snd].
      rewrite !map_app, !map_map. cbn [map fst snd app].
      rewrite <- (app_assoc _ [_] [_]). reflexivity. }
    assert (Hfirst_out :
              exp.epigraph_conic_form self g
              = Ok ((A_vals (map snd (base.arg_terms (exp.args self))
                             ++ [1%Q; 0%Q]),
                     A_rows (map (fun _ => 0) (base.arg_terms (exp.args self))
                             ++ [1; 2]),
                     A_cols ((map (fun vc => base.id (fst vc))
                                  (base.arg_terms (exp.args self))
                              ++ [base.id
                                    (fst (fst (exp.ensure_aux_var self g)))])
                             ++ [base.curr_variable_count
                                   (snd (exp.ensure_aux_var self g)) - 1]),
                     b_vec [base.arg_offset (exp.args self); 0%Q; 1%Q],
                     K_list [ {| cones.type := "e"; cones.len := 3 |} ],
                     aux (fst (fst (exp.ensure_aux_var self g)))),
                    snd (fst (exp.ensure_aux_var self g)),
                    snd (exp.ensure_aux_var self g))).
    { rewrite exp_epigraph_closed. cbv zeta.
      rewrite !map_app, !map_map. cbn [map fst snd].
      rewrite <- !app_assoc. reflexivity. }
    eexists _, _, _, _, _, _, _, _, _.
    split; [exact Hfirst_out|].
    split; [reflexivity|].
    split; [reflexivity|]. split; [exact Haux|]. split; [exact Hfirst|].
    split; [apply Hlater|].
    intros g2. eexists. split; [apply Hlater|].
    split; [reflexivity|]. split; [reflexivity|]. split.
    + intros H. injection H as H. apply app_inj_tail in H as [_ H]. lia.
    + intros ->. reflexivity.
  - intros self g.
    destruct (norms_ensure_args self g) as [Hargs Haux].
    pose proof (norms_ensure_idem self g) as Hidem.
    assert (Hfirst : match norms.aux_var self with
                     | None =>
                         fst (fst (norms.ensure_aux_var self g))
                         = {| base.id := base.curr_variable_count g |}
                         /\ base.curr_variable_count
                              (snd (norms.ensure_aux_var self g))
                            = base.curr_variable_count g + 1
                     | Some v =>
                         fst (fst (norms.ensure_aux_var self g)) = v
                         /\ snd (norms.ensure_aux_var self g) = g
                     end).
    { unfold norms.ensure_aux_var. destruct (norms.aux_var self); cbn; auto. }
    eexists _, _, _, _. split; [apply norms_epigraph_closed|]. cbv zeta.
    split; [reflexivity|]. split; [exact Haux|]. split; [exact Hfirst|].
    split.
    + rewrite norms_epigraph_closed. cbv zeta. rewrite Hidem, Hargs.
      reflexivity.
    + intros g2. rewrite norms_epigraph_closed. cbv zeta.
      rewrite Hidem, Hargs. reflexivity.
Qed.

(** An [Exponential] over [3 v7 + 5]: the first call returns the columns
    [7; 8; 8]; after one more scalar variable is allocated, the second call
    on the same atom returns [7; 8; 9], with the same auxiliary variable. *)
Lemma exponential_second_output_differs :
  exists out1 atom1 g1 out2,
    exp.epigraph_conic_form
      (fst (exp.__init__ examples.arg_3v7_plus_5 examples.g8))
      (snd (exp.__init__ examples.arg_3v7_plus_5 examples.g8))
    = Ok (out1, atom1, g1)
    /\ exp.epigraph_conic_form atom1 (snd (base.Variable_scalar g1))
       = Ok (out2, atom1, snd (base.Variable_scalar g1))
    /\ out1 = (A_vals [3%Q; 1%Q; 0%Q], A_rows [0; 1; 2], A_cols [7; 8; 8],
               b_vec [5%Q; 0%Q; 1%Q],
               K_list [ {| cones.type := "e"; cones.len := 3 |} ],
               aux {| base.id := 8 |})
    /\ out2 = (A_vals [3%Q; 1%Q; 0%Q], A_rows [0; 1; 2], A_cols [7; 8; 9],
               b_vec [5%Q; 0%Q; 1%Q],
               K_list [ {| cones.type := "e"; cones.len := 3 |} ],
               aux {| base.id := 8 |})
    /\ aux_of out2 = aux_of out1
    /\ out2 <> out1.
Proof.
  eexists _, _, _, _.
  split; [reflexivity|]. split; [reflexivity|].
  split; [reflexivity|]. split; [reflexivity|]. split; [reflexivity|].
  discriminate.
Qed.

(** ** The primal ordinary SAGE cone with at most two terms *)

Lemma fold_left_Qmax_ge (l : list Q) :
  forall a : Q,
    (a <= fold_left Qmax l a)%Q
    /\ forall x, In x l -> (x <= fold_left Qmax l a)%Q.
Proof.
  induction l as [|y l IH]; intros a; cbn [fold_left].
  - split; [apply Qle_refl|intros x []].
  - destruct (IH (Qmax a y)) as [Ha Hl]. split.
    + eapply Qle_trans; [apply Q.le_max_l|exact Ha].
    + intros x [<-|Hx].
      * eapply Qle_trans; [apply Q.le_max_r|exact Ha].
      * now apply Hl.
Qed.

Lemma fold_left_Qmax_zeros (l : list Q) :
  (forall x, In x l -> x = 0%Q) -> fold_left Qmax l 0%Q = 0%Q.
Proof.
  induction l as [|y l IH]; intros H; cbn [fold_left]; [reflexivity|].
  rewrite (H y (or_introl eq_refl)). apply IH.
  intros x Hx. apply H. now right.
Qed.

Section sage_claims.
Import base expressions ordinary_sage_cone.

Variable value : Expression -> list Q.
Variable sqrt : Q -> Q.
Variable violation_general :
  PrimalOrdinarySageCone -> list Q -> np.ord_arg -> bool -> result Q.

Lemma violation_small (self : PrimalOrdinarySageCone) (ord : np.ord_arg)
    (rough : bool) :
  m self <= 2 ->
  violation value sqrt violation_general self ord rough
  = np.linalg_norm sqrt (negative_part (value (c self))) ord.
Proof.
  intros Hm. unfold violation. cbn.
  destruct (Z.ltb_spec 2 (m self)) as [H|_]; [lia|]. reflexivity.
Qed.

(** C7: with [m <= 2] the violation is the norm of the negative part of
    the value of [c]; for [c = (-1, 2)] the default call returns exactly 1;
    and the default violation of a nonempty [c] is zero exactly when every
    entry of [c] is nonnegative. *)
Theorem sage_violation_small_is_negative_part
    (self : PrimalOrdinarySageCone) :
  m self <= 2 ->
  (forall ord rough,
      violation value sqrt violation_general self ord rough
      = np.linalg_norm sqrt (negative_part (value (c self))) ord)
  /\ (value (c self) = [(-1 # 1)%Q; 2%Q] ->
      violation_default value sqrt violation_general self = Ok 1%Q)
  /\ (value (c self) <> [] ->
      exists v,
        violation_default value sqrt violation_general self = Ok v
        /\ (v == 0 <-> Forall (fun y => 0 <= y) (value (c self)))%Q).
Proof.
  intros Hm. split; [intros; now apply violation_small|]. split.
  - intros Hc. unfold violation_default. rewrite violation_small by exact Hm.
    rewrite Hc. reflexivity.
  - intros Hne. unfold violation_default.
    rewrite violation_small by exact Hm.
    destruct (value (c self)) as [|y0 ys] eqn:Hc; [now destruct Hne|].
    cbn [np.linalg_norm negative_part np.abs map].
    eexists. split; [reflexivity|].
    set (f := fun y : Q => Qabs (if Qle_bool 0 y then 0%Q else y)).
    change (Qabs (if Qle_bool 0 y0 then 0%Q else y0)) with (f y0).
    rewrite map_map.
    change (map (fun x => Qabs (if Qle_bool 0 x then 0%Q else x)) ys)
      with (map f ys).
    assert (Hf0 : forall y, (0 <= y)%Q -> f y = 0%Q).
    { intros y Hy. unfold f. apply Qle_bool_iff in Hy. now rewrite Hy. }
    assert (Hfneg : forall y, ~ (0 <= y)%Q -> (0 < f y)%Q).
    { intros y Hy. unfold f.
      destruct (Qle_bool 0 y) eqn:Hb; [apply Qle_bool_iff in Hb; tauto|].
      apply Qnot_le_lt in Hy.
      rewrite Qabs_neg by (apply Qlt_le_weak; exact Hy). lra. }
    destruct (fold_left_Qmax_ge (map f ys) (f y0)) as [Hge0 Hges].
    split.
    + intros Hz. rewrite Forall_forall. intros y Hy.
      destruct (Qlt_le_dec y 0) as [Hneg|Hpos]; [|exact Hpos].
      exfalso. apply Qlt_not_le in Hneg. apply Hfneg in Hneg.
      apply (Qlt_irrefl 0). eapply Qlt_le_trans; [exact Hneg|].
      rewrite <- Hz. destruct Hy as [<-|Hy]; [exact Hge0|].
      apply Hges. now apply in_map.
    + intros Hall. rewrite Forall_forall in Hall.
      rewrite (Hf0 y0) by (apply Hall; now left).
      rewrite fold_left_Qmax_zeros; [reflexivity|].
      intros x Hx. apply in_map_iff in Hx as [y [<- Hy]].
      apply Hf0, Hall. now right.
Qed.

End sage_claims.

(** C7 on the cone over two exponents whose [c] is the constant vector
    [(-1, 2)]. *)
Lemma sage_violation_small_is_negative_part_witness :
  ordinary_sage_cone.violation_default
    (algebra.value (fun _ => 0%Q)) (fun q => q)
    (fun _ _ _ _ => Raise NotImplementedError)
    (ordinary_sage_cone.__init__ examples.c_minus1_2 [[0%Q]; [1%Q]] "con")
  = Ok 1%Q.
Proof.
  refine (proj1 (proj2 (sage_violation_small_is_negative_part
                          (algebra.value (fun _ => 0%Q)) (fun q => q)
                          (fun _ _ _ _ => Raise NotImplementedError)
                          (ordinary_sage_cone.__init__ examples.c_minus1_2
                             [[0%Q]; [1%Q]] "con") _)) _).
  - cbn. lia.
  - reflexivity.
Defined.

(** X13: The branch [m <= 2] of [PrimalOrdinarySageCone.conic_form] unpacks the
    six positions of the elementwise fragment into five names. *)
Lemma sage_conic_form_small_unpacks_five
    (sub : expressions.Expression -> expressions.Expression
           -> expressions.Expression)
    (general : ordinary_sage_cone.PrimalOrdinarySageCone -> base.Globals
               -> result (list (list component) * base.Globals))
    (self : ordinary_sage_cone.PrimalOrdinarySageCone) (g : base.Globals) :
  ordinary_sage_cone.m self <= 2 ->
  ordinary_sage_cone.conic_form sub general self g
  = Raise (ValueError "too many values to unpack (expected 5)").
Proof.
  intros Hm. unfold ordinary_sage_cone.conic_form.
  destruct (Z.ltb_spec 2 (ordinary_sage_cone.m self)) as [H|_]; [lia|].
  rewrite init_ge. cbn [bind].
  rewrite conic_form_closed; [|reflexivity|now right].
  reflexivity.
Qed.

(** ** The violation of an elementwise constraint *)

Section violation_claims.
Import base expressions elementwise.

Variable sub : Expression -> Expression -> Expression.
Variable value : Expression -> list Q.
Variable sqrt : Q -> Q.

Lemma violation_inequality (self : ElementwiseConstraint)
    (norm : option (list Q -> result Q)) :
  initial_operator self = "<="%string
  \/ initial_operator self = ">="%string ->
  violation sub value sqrt self norm
  = Raise TypeError.
Proof.
  intros [H|H]; unfold violation; rewrite H; reflexivity.
Qed.

Lemma violation_equality (self : ElementwiseConstraint) :
  initial_operator self = "=="%string ->
  violation sub value sqrt self None
  = default_norm sqrt (np.abs (value (sub (lhs self) (rhs self)))).
Proof.
  intros H. unfold violation. rewrite H. reflexivity.
Qed.

End violation_claims.

(** C2: [violation()] on [x <= 0] at [x = 1].  The residual is computed by
    [np.max(0, expr_val)], which reduces the scalar 0 along the "axis"
    [expr_val]: the call raises a TypeError and no value is returned, for
    every constraint built with [<=] or [>=]; only an equality reaches the
    norm, where a length-1 residual gives its absolute value, 0 when the
    equality holds exactly. *)
Theorem violation_of_inequality_raises :
  (exists con g',
      elementwise.__init__ algebra.sub [algebra.var 0] [algebra.const 0%Q]
                           "<=" examples.g8 = Ok (con, g')
      /\ algebra.value (fun _ => 1%Q) (algebra.sub (elementwise.lhs con)
                                                   (elementwise.rhs con))
         = [1%Q]
      /\ forall sqrt,
          elementwise.violation algebra.sub (algebra.value (fun _ => 1%Q))
                                sqrt con None
          = Raise TypeError)
  /\ (forall sub value sqrt lhs rhs op g con g' norm,
        op = "<="%string \/ op = ">="%string ->
        elementwise.__init__ sub lhs rhs op g = Ok (con, g') ->
        elementwise.violation sub value sqrt con norm
        = Raise TypeError)
  /\ (forall sub value sqrt lhs rhs g con g' r,
        elementwise.__init__ sub lhs rhs "==" g = Ok (con, g') ->
        value (sub lhs rhs) = [r] ->
        exists v,
          elementwise.violation sub value sqrt con None = Ok v
          /\ (v == Qabs r)%Q).
Proof.
  split; [|split].
  - eexists _, _. split; [reflexivity|]. split; [reflexivity|].
    intros sqrt. reflexivity.
  - intros sub value sqrt lhs rhs op g con g' norm Hop Hinit.
    apply violation_inequality.
    destruct Hop as [-> | ->].
    + rewrite init_other in Hinit by reflexivity.
      injection Hinit as <- _. now left.
    + rewrite init_ge in Hinit. injection Hinit as <- _. now right.
  - intros sub value sqrt lhs rhs g con g' r Hinit Hval.
    rewrite init_eq in Hinit. injection Hinit as <- _.
    rewrite violation_equality by reflexivity.
    cbn [elementwise.lhs elementwise.rhs]. rewrite Hval.
    eexists. split; [reflexivity|].
    cbn [np.abs map hd]. apply Qabs_pos, Qabs_nonneg.
Qed.

(** ** Runs on the concrete inputs *)

(** The fragment of [(2 v7 + 1, 5) <= 0] with eight variables allocated. *)
Example conic_form_mixed :
  elementwise.conic_form examples.mixed_con examples.g8
  = Ok (A_vals [(- (2))%Q; 0%Q], A_rows [0; 1], A_cols [7; 7],
        b_vec [(- (1))%Q; (- (5))%Q],
        K_list [ {| cones.type := "+"; cones.len := 2 |} ], empty_list).
Proof. reflexivity. Qed.

(** The fragment of [exp(3 v7 + 5)], first call: the auxiliary variable gets
    id 8 and the placeholder of row 2 sits in column 8. *)
Example exponential_first_call :
  exists atom' g',
    exp.epigraph_conic_form (fst (exp.__init__ examples.arg_3v7_plus_5 examples.g8))
                            (snd (exp.__init__ examples.arg_3v7_plus_5 examples.g8))
    = Ok ((A_vals [3%Q; 1%Q; 0%Q], A_rows [0; 1; 2], A_cols [7; 8; 8],
           b_vec [5%Q; 0%Q; 1%Q],
           K_list [ {| cones.type := "e"; cones.len := 3 |} ],
           aux {| base.id := 8 |}), atom', g')
    /\ base.curr_variable_count g' = 9.
Proof. eexists _, _. split; reflexivity. Qed.

(** A later call, made after one more variable was allocated, returns the
    same auxiliary variable; only the placeholder column of row 2 follows
    the variable count. *)
Example exponential_later_call :
  forall atom' g' out,
    exp.epigraph_conic_form (fst (exp.__init__ examples.arg_3v7_plus_5 examples.g8))
                            (snd (exp.__init__ examples.arg_3v7_plus_5 examples.g8))
    = Ok (out, atom', g') ->
    exp.epigraph_conic_form atom' (snd (base.Variable_scalar g'))
    = Ok ((A_vals [3%Q; 1%Q; 0%Q], A_rows [0; 1; 2], A_cols [7; 8; 9],
           b_vec [5%Q; 0%Q; 1%Q],
           K_list [ {| cones.type := "e"; cones.len := 3 |} ],
           aux {| base.id := 8 |}), atom', snd (base.Variable_scalar g')).
Proof.
  intros atom' g' out H. cbn in H. injection H as _ <- <-. reflexivity.
Qed.

(** [x >= 0], violated at [x = -1], raises as well. *)
Example violation_ge_raises :
  forall con g' sqrt,
    elementwise.__init__ algebra.sub [algebra.var 0] [algebra.const 0%Q]
                         ">=" examples.g8 = Ok (con, g') ->
    elementwise.violation algebra.sub (algebra.value (fun _ => (- (1))%Q))
                          sqrt con None
    = Raise TypeError.
Proof.
  intros con g' sqrt H. cbn in H. injection H as <- _. reflexivity.
Qed.

(** ** Further properties of [elementwise.conic_form] *)

Lemma fold_left_linear (x : Z -> Q) (l : list (expressions.Atom * Q)) :
  forall a : Q,
    (fold_left (fun acc ac => acc + snd ac * x (expressions.atom_id (fst ac)))
               l a
     == a + - dot (map (fun ac => (expressions.atom_id (fst ac), - snd ac)) l)
                  x)%Q.
Proof.
  induction l as [|ac l IH]; intros a; cbn [fold_left map dot fold_right].
  - ring.
  - rewrite IH. cbn [fst snd]. fold (dot (map (fun ac0 : expressions.Atom * Q =>
        (expressions.atom_id (fst ac0), (- snd ac0)%Q)) l) x). ring.
Qed.

Lemma row_entries_value (count i : Z) (se : expressions.ScalarExpression)
    (x : Z -> Q) :
  (dot (map snd (row_entries count i se)) x + - expressions.offset se
   == - algebra.scalar_value x se)%Q.
Proof.
  unfold algebra.scalar_value, row_entries. rewrite Qred_correct.
  rewrite fold_left_linear.
  destruct (expressions.atoms_to_coeffs se) as [|ac l].
  - cbn [map dot fold_right fst snd]. ring.
  - rewrite map_map. cbn [snd]. ring.
Qed.

Lemma image_from_rows (count : Z) (rows cols : list Z) (vals : list Q)
    (x : Z -> Q) (todo : list expressions.ScalarExpression) :
  forall j : Z,
    (forall (i : nat) (se : expressions.ScalarExpression),
        nth_error todo i = Some se ->
        row_of (j + Z.of_nat i) rows cols vals
        = map snd (row_entries count (j + Z.of_nat i) se)) ->
    Forall2 Qeq
      (image_from j rows cols vals
                  (map (fun se => (- expressions.offset se)%Q) todo) x)
      (map (fun se => (- algebra.scalar_value x se)%Q) todo).
Proof.
  induction todo as [|se rest IH]; intros j Hrow; cbn [map image_from].
  - constructor.
  - constructor.
    + pose proof (Hrow 0%nat se eq_refl) as H0.
      cbn [Z.of_nat] in H0. rewrite Z.add_0_r in H0. rewrite H0.
      apply row_entries_value.
    + apply IH. intros i se' Hnth.
      replace (j + 1 + Z.of_nat i) with (j + Z.of_nat (S i)) by lia.
      now apply Hrow.
Qed.

(** X1: For a compiled constraint, [A x + b] is, row by row, minus the offset
    and minus the coefficients times the values of the columns of their
    atoms: for an affine expression, minus its value at [x]. *)
Theorem conic_form_affine_image (self : elementwise.ElementwiseConstraint)
    (g : base.Globals) (x : Z -> Q) :
  elementwise.epigraph_checked self = true ->
  elementwise.operator self = "=="%string
  \/ elementwise.operator self = "<="%string ->
  exists (vals : list Q) (rows cols : list Z) (b : list Q) (K : list cones.Cone),
    elementwise.conic_form self g
    = Ok (A_vals vals, A_rows rows, A_cols cols, b_vec b, K_list K, empty_list)
    /\ Forall2 Qeq (affine_image rows cols vals b x)
               (map (fun se => (- algebra.scalar_value x se)%Q)
                    (elementwise.expr self)).
Proof.
  intros Hchk Hop. eexists _, _, _, _, _.
  split; [rewrite (conic_form_closed self g Hchk Hop); reflexivity|].
  unfold affine_image. apply (image_from_rows (base.curr_variable_count g)).
  intros i se Hnth. rewrite row_of_entries.
  now rewrite (entries_from_row _ _ 0 i se Hnth).
Qed.

(** On [(2 v7 + 1, 5) <= 0] at [v7 = 3]: the image is [(-7, -5)]. *)
Lemma conic_form_affine_image_witness :
  exists (vals : list Q) (rows cols : list Z) (b : list Q) (K : list cones.Cone),
    elementwise.conic_form examples.mixed_con examples.g8
    = Ok (A_vals vals, A_rows rows, A_cols cols, b_vec b, K_list K, empty_list)
    /\ Forall2 Qeq (affine_image rows cols vals b (fun _ => 3%Q))
               [(- (7))%Q; (- (5))%Q].
Proof.
  exact (conic_form_affine_image examples.mixed_con examples.g8
           (fun _ => 3%Q) eq_refl (or_intror eq_refl)).
Defined.

Lemma entries_from_sorted (count : Z) (todo : list expressions.ScalarExpression) :
  forall j : Z, StronglySorted Z.le (map fst (entries_from count j todo)).
Proof.
  induction todo as [|se rest IH]; intros j; cbn [entries_from map].
  - constructor.
  - rewrite map_app.
    assert (Hrow : forall r, In r (map fst (row_entries count j se)) -> r = j).
    { intros r Hr. apply in_map_iff in Hr as [e [<- He]].
      now apply row_entries_row in He. }
    assert (Hrest : forall r,
               In r (map fst (entries_from count (j + 1) rest)) -> j <= r).
    { intros r Hr. apply in_map_iff in Hr as [e [<- He]].
      apply entries_from_rows_ge in He. lia. }
    induction (map fst (row_entries count j se)) as [|r l IHl]; cbn [app].
    + apply IH.
    + constructor.
      * apply IHl. intros r' Hr'. apply Hrow. now right.
      * rewrite Forall_forall. intros r' Hr'.
        rewrite (Hrow r (or_introl eq_refl)).
        apply in_app_or in Hr' as [Hr'|Hr'].
        -- rewrite (Hrow r' (or_intror Hr')). lia.
        -- now apply Hrest.
Qed.

Lemma row_entries_nonempty (count i : Z) (se : expressions.ScalarExpression) :
  row_entries count i se <> [].
Proof.
  unfold row_entries. destruct (expressions.atoms_to_coeffs se); discriminate.
Qed.

(** X2: A compiled fragment is well formed: the three coordinate lists have one
    length, there is one offset per scalar expression and the single cone
    has that size, the row indices are nondecreasing, lie in [0, m), and
    every row has at least one entry. *)
Theorem conic_form_well_formed (self : elementwise.ElementwiseConstraint)
    (g : base.Globals) :
  elementwise.epigraph_checked self = true ->
  elementwise.operator self = "=="%string
  \/ elementwise.operator self = "<="%string ->
  exists (vals : list Q) (rows cols : list Z) (b : list Q) (tag : string),
    elementwise.conic_form self g
    = Ok (A_vals vals, A_rows rows, A_cols cols, b_vec b,
          K_list [ {| cones.type := tag;
                      cones.len := Z.of_nat (List.length b) |} ],
          empty_list)
    /\ List.length rows = List.length vals
    /\ List.length cols = List.length vals
    /\ List.length b = List.length (elementwise.expr self)
    /\ StronglySorted Z.le rows
    /\ Forall (fun r => 0 <= r < Z.of_nat (List.length b)) rows
    /\ forall i : nat,
        (i < List.length b)%nat -> row_of (Z.of_nat i) rows cols vals <> [].
Proof.
  intros Hchk Hop. eexists _, _, _, _, _.
  split.
  { rewrite (conic_form_closed self g Hchk Hop). cbv zeta.
    rewrite length_map. reflexivity. }
  split; [now rewrite !length_map|]. split; [now rewrite !length_map|].
  split; [now rewrite length_map|].
  split; [apply entries_from_sorted|].
  split.
  - rewrite Forall_forall. intros r Hr. rewrite length_map.
    apply in_map_iff in Hr as [e [<- He]].
    pose proof (entries_from_rows_ge _ _ _ _ He) as Hge.
    apply entries_from_in in He as (i & se & Hnth & He).
    apply row_entries_row in He.
    assert (i < List.length (elementwise.expr self))%nat
      by (apply nth_error_Some; congruence).
    lia.
  - intros i Hi. rewrite length_map in Hi.
    destruct (nth_error (elementwise.expr self) i) as [se|] eqn:Hnth;
      [|apply nth_error_None in Hnth; lia].
    rewrite row_of_entries.
    rewrite <- (Z.add_0_l (Z.of_nat i)).
    rewrite (entries_from_row _ _ 0 i se Hnth).
    intros Hnil. apply map_eq_nil in Hnil.
    now apply row_entries_nonempty in Hnil.
Qed.

(** On [(2 v7 + 1, 5) <= 0]: two offsets, one cone of size 2. *)
Lemma conic_form_well_formed_witness :
  exists (vals : list Q) (rows cols : list Z) (b : list Q) (tag : string),
    elementwise.conic_form examples.mixed_con examples.g8
    = Ok (A_vals vals, A_rows rows, A_cols cols, b_vec b,
          K_list [ {| cones.type := tag;
                      cones.len := Z.of_nat (List.length b) |} ],
          empty_list)
    /\ List.length b = 2%nat
    /\ StronglySorted Z.le rows.
Proof.
  destruct (conic_form_well_formed examples.mixed_con examples.g8 eq_refl
              (or_intror eq_refl))
    as (vals & rows & cols & b & tag & Hcf & _ & _ & Hb & Hs & _).
  exists vals, rows, cols, b, tag. split; [exact Hcf|]. split; assumption.
Defined.

Lemma entries_from_cols (count : Z) (todo : list expressions.ScalarExpression)
    (P : Z -> Prop) :
  (Exists (fun se => expressions.atoms_to_coeffs se = []) todo ->
   P (count - 1)) ->
  Forall (fun se => Forall (fun ac => P (expressions.atom_id (fst ac)))
                           (expressions.atoms_to_coeffs se)) todo ->
  forall j, Forall P (map (fun e => fst (snd e)) (entries_from count j todo)).
Proof.
  intros Hconst Hall j. rewrite Forall_forall. intros col Hcol.
  apply in_map_iff in Hcol as [e [<- He]].
  apply entries_from_in in He as (i & se & Hnth & He).
  apply nth_error_In in Hnth.
  unfold row_entries in He.
  destruct (expressions.atoms_to_coeffs se) as [|ac l] eqn:Hat.
  - destruct He as [<-|[]]. cbn [fst snd]. apply Hconst.
    apply Exists_exists. now exists se.
  - rewrite Forall_forall in Hall. specialize (Hall se Hnth).
    rewrite Hat, Forall_forall in Hall.
    apply in_map_iff in He as [ac' [<- Hac']]. cbn [fst snd].
    now apply Hall.
Qed.

(** X3: Every emitted column index lies in the global column space
    [0, curr_variable_count()) when the ids of the atoms do; a row without
    atoms needs at least one allocated variable for that, since its
    placeholder sits in column [curr_variable_count() - 1]. *)
Theorem conic_form_columns_in_range (self : elementwise.ElementwiseConstraint)
    (g : base.Globals) :
  elementwise.epigraph_checked self = true ->
  elementwise.operator self = "=="%string
  \/ elementwise.operator self = "<="%string ->
  Forall (fun se =>
            Forall (fun ac => 0 <= expressions.atom_id (fst ac)
                                < base.curr_variable_count g)
                   (expressions.atoms_to_coeffs se))
         (elementwise.expr self) ->
  (Exists (fun se => expressions.atoms_to_coeffs se = [])
          (elementwise.expr self) ->
   1 <= base.curr_variable_count g) ->
  exists (vals : list Q) (rows cols : list Z) (b : list Q) (K : list cones.Cone),
    elementwise.conic_form self g
    = Ok (A_vals vals, A_rows rows, A_cols cols, b_vec b, K_list K, empty_list)
    /\ Forall (fun col => 0 <= col < base.curr_variable_count g) cols.
Proof.
  intros Hchk Hop Hids Hcount. eexists _, _, _, _, _.
  split; [rewrite (conic_form_closed self g Hchk Hop); reflexivity|].
  apply entries_from_cols; [|exact Hids].
  intros Hex. specialize (Hcount Hex). lia.
Qed.

(** On [(2 v7 + 1, 5) <= 0] with eight variables: the columns are below 8. *)
Lemma conic_form_columns_in_range_witness :
  exists (vals : list Q) (rows cols : list Z) (b : list Q) (K : list cones.Cone),
    elementwise.conic_form examples.mixed_con examples.g8
    = Ok (A_vals vals, A_rows rows, A_cols cols, b_vec b, K_list K, empty_list)
    /\ Forall (fun col => 0 <= col < 8) cols.
Proof.
  refine (conic_form_columns_in_range examples.mixed_con examples.g8 eq_refl
            (or_intror eq_refl) _ _).
  - repeat constructor; cbn; lia.
  - intros _. cbn. lia.
Defined.

Lemma entries_from_count_free (todo : list expressions.ScalarExpression) :
  Forall (fun se => expressions.atoms_to_coeffs se <> []) todo ->
  forall count count' j,
    entries_from count j todo = entries_from count' j todo.
Proof.
  induction 1 as [|se rest Hse _ IH]; intros count count' j;
    cbn [entries_from]; [reflexivity|].
  rewrite (IH count count'). f_equal.
  unfold row_entries.
  destruct (expressions.atoms_to_coeffs se); [now destruct Hse|reflexivity].
Qed.

(** X4: When every scalar expression of the constraint has an atom, the
    fragment does not depend on the counters of the process: compiling
    before or after other variables are allocated gives the same result. *)
Theorem conic_form_state_free (self : elementwise.ElementwiseConstraint)
    (g g' : base.Globals) :
  Forall (fun se => expressions.atoms_to_coeffs se <> [])
         (elementwise.expr self) ->
  elementwise.conic_form self g = elementwise.conic_form self g'.
Proof.
  intros Hall.
  destruct (elementwise.epigraph_checked self) eqn:Hchk;
    [|unfold elementwise.conic_form; now rewrite Hchk].
  destruct (String.eqb_spec (elementwise.operator self) "==") as [Heq|Hne].
  - rewrite !conic_form_closed by (auto). cbv zeta.
    now rewrite (entries_from_count_free _ Hall
                   (base.curr_variable_count g) (base.curr_variable_count g')).
  - destruct (String.eqb_spec (elementwise.operator self) "<=") as [Hle|Hnle].
    + rewrite !conic_form_closed by (auto). cbv zeta.
      now rewrite (entries_from_count_free _ Hall
                     (base.curr_variable_count g)
                     (base.curr_variable_count g')).
    + unfold elementwise.conic_form. rewrite Hchk. cbn [negb].
      apply String.eqb_neq in Hne, Hnle. now rewrite Hne, Hnle.
Qed.

(** On the one-row constraint [2 v7 + 1 <= 0], compiled with eight variables
    and with none. *)
Lemma conic_form_state_free_witness :
  let con :=
    {| elementwise.id := 0;
       elementwise.lhs := [hd (algebra.const 0%Q) examples.mixed_expression];
       elementwise.rhs := [algebra.const 0%Q];
       elementwise.initial_operator := "<=";
       elementwise.name := "Elementwise[0] : ";
       elementwise.expr := [hd (algebra.const 0%Q) examples.mixed_expression];
       elementwise.operator := "<=";
       elementwise.epigraph_checked := true |} in
  elementwise.conic_form con examples.g8
  = elementwise.conic_form con
      {| base._SCALAR_VARIABLE_COUNTER_ := 0;
         base._EXPONENTIAL_COUNTER_ := 0;
         base._VECTOR_2_NORM_COUNTER_ := 0;
         base._ELEMENTWISE_CONSTRAINT_ID_ := 0 |}.
Proof.
  intros con. apply conic_form_state_free.
  repeat constructor. discriminate.
Defined.

(** ** Construction of elementwise constraints: tokens, ids and names *)

Lemma str_inj (k k' : Z) : str k = str k' -> k = k'.
Proof.
  unfold str. intros H.
  assert (Hnn : forall z, Z.to_int z <> Decimal.Pos Decimal.Nil
                          /\ Z.to_int z <> Decimal.Neg Decimal.Nil).
  { intros [|p|p]; cbn; split; try discriminate; intros [= E];
      now apply DecimalPos.Unsigned.to_uint_nonnil in E. }
  apply DecimalZ.to_int_inj.
  assert (Some (Z.to_int k) = Some (Z.to_int k')) as [= E]; [|exact E].
  destruct (Hnn k) as [H1 H2]. destruct (Hnn k') as [H1' H2'].
  rewrite <- (NilZero.isi _ H1 H2), <- (NilZero.isi _ H1' H2'), H.
  reflexivity.
Qed.

Lemma append_inj_r (t s s' : string) :
  (s ++ t)%string = (s' ++ t)%string -> s = s'.
Proof.
  assert (Hlen : forall a b, String.length (a ++ b)
                             = (String.length a + String.length b)%nat).
  { induction a as [|ch a IH]; intros b; cbn; [reflexivity|]. now rewrite IH. }
  revert s'. induction s as [|ch s IH]; intros [|ch' s'] H; cbn in H.
  - reflexivity.
  - apply (f_equal String.length) in H. cbn in H. rewrite Hlen in H. lia.
  - apply (f_equal String.length) in H. cbn in H. rewrite Hlen in H. lia.
  - injection H as -> H. f_equal. now apply IH.
Qed.

Section construction.
Import base expressions elementwise.

Variable sub : Expression -> Expression -> Expression.
Variable value : Expression -> list Q.
Variable sqrt : Q -> Q.

(** X5: An operator token that is none of [==], [<=], [>=] is not rejected: the
    constraint is built like [<=] (expression [lhs - rhs], canonical
    operator [<=], flag unset), it compiles to a nonnegative orthant once
    the flag is set, and its violation is the norm of the absolute values of
    [lhs - rhs], as for an equality. *)
Theorem unsupported_operator_is_accepted (lhs rhs : Expression)
    (op : string) (g : Globals) (norm : list Q -> result Q) :
  op <> "=="%string -> op <> "<="%string -> op <> ">="%string ->
  exists con g',
    __init__ sub lhs rhs op g = Ok (con, g')
    /\ expr con = sub lhs rhs
    /\ operator con = "<="%string
    /\ initial_operator con = op
    /\ epigraph_checked con = false
    /\ (forall g2, exists vals rows cols b,
          conic_form (set_epigraph_checked true con) g2
          = Ok (A_vals vals, A_rows rows, A_cols cols, b_vec b,
                K_list [ {| cones.type := "+";
                            cones.len :=
                              Z.of_nat (List.length (sub lhs rhs)) |} ],
                empty_list))
    /\ violation sub value sqrt con (Some norm)
       = norm (np.abs (value (sub lhs rhs))).
Proof.
  intros Heq Hle Hge. apply String.eqb_neq in Heq, Hle, Hge.
  rewrite init_other by assumption. eexists _, _.
  split; [reflexivity|].
  cbn [elementwise.expr elementwise.operator elementwise.initial_operator
       elementwise.epigraph_checked].
  repeat (split; [reflexivity|]). split.
  - intros g2. eexists _, _, _, _.
    rewrite conic_form_closed; cbn; [reflexivity|reflexivity|now right].
  - unfold violation.
    cbn [elementwise.initial_operator elementwise.lhs elementwise.rhs].
    rewrite Hle, Hge.
    reflexivity.
Qed.

(** X6: Each construction takes the current constraint id and advances that
    counter by one, leaving the other counters alone; the name is built from
    the id, so two constraints have the same name exactly when they were
    built at the same value of the counter, and two constraints built one
    after the other differ in id and name. *)
Theorem constraint_ids_and_names (l1 r1 l2 r2 : Expression)
    (op1 op2 : string) (g1 g2 : Globals) :
  exists c1 g1' c2 g2',
    __init__ sub l1 r1 op1 g1 = Ok (c1, g1')
    /\ __init__ sub l2 r2 op2 g2 = Ok (c2, g2')
    /\ id c1 = _ELEMENTWISE_CONSTRAINT_ID_ g1
    /\ _ELEMENTWISE_CONSTRAINT_ID_ g1' = _ELEMENTWISE_CONSTRAINT_ID_ g1 + 1
    /\ _SCALAR_VARIABLE_COUNTER_ g1' = _SCALAR_VARIABLE_COUNTER_ g1
    /\ _EXPONENTIAL_COUNTER_ g1' = _EXPONENTIAL_COUNTER_ g1
    /\ _VECTOR_2_NORM_COUNTER_ g1' = _VECTOR_2_NORM_COUNTER_ g1
    /\ (name c1 = name c2 <-> id c1 = id c2)
    /\ (g2 = g1' -> id c2 = id c1 + 1 /\ name c1 <> name c2).
Proof.
  destruct (init_total sub l1 r1 op1 g1) as (c1 & g1' & H1 & _ & _).
  destruct (init_total sub l2 r2 op2 g2) as (c2 & g2' & H2 & _ & _).
  exists c1, g1', c2, g2'. split; [exact H1|]. split; [exact H2|].
  assert (Hshape : forall l r op g c g',
             __init__ sub l r op g = Ok (c, g') ->
             id c = _ELEMENTWISE_CONSTRAINT_ID_ g
             /\ name c = ("Elementwise[" ++ str (id c) ++ "] : ")%string
             /\ g' = next_constraint_id g).
  { intros l r op g c g' H. unfold __init__ in H.
    destruct (op =? "==")%string; cbn in H; injection H as <- <-;
      repeat split. }
  destruct (Hshape _ _ _ _ _ _ H1) as (Hid1 & Hn1 & ->).
  destruct (Hshape _ _ _ _ _ _ H2) as (Hid2 & Hn2 & ->).
  repeat (split; [reflexivity || exact Hid1|]).
  assert (Hname : name c1 = name c2 <-> id c1 = id c2).
  { rewrite Hn1, Hn2. split.
    - intros H. cbn in H.
      repeat match type of H with String _ _ = String _ _ =>
                                    injection H as H end.
      apply append_inj_r in H. now apply str_inj.
    - now intros ->. }
  split; [exact Hname|].
  intros ->. cbn [next_constraint_id _ELEMENTWISE_CONSTRAINT_ID_] in Hid2.
  split; [lia|]. intros Hn. apply Hname in Hn. lia.
Qed.

End construction.

(** The token [<] on [(2 v7 + 1, 5)] against [(0, 0)]. *)
Lemma unsupported_operator_is_accepted_witness :
  exists con g',
    elementwise.__init__ algebra.sub examples.mixed_expression examples.zero2
                         "<" examples.g8 = Ok (con, g')
    /\ elementwise.operator con = "<="%string
    /\ elementwise.violation algebra.sub (algebra.value (fun _ => (-1 # 1)%Q))
                             (fun q => q) con
                             (Some (fun r => Ok (np.sum r)))
       = Ok (np.sum [1%Q; 5%Q]).
Proof.
  destruct (unsupported_operator_is_accepted algebra.sub
              (algebra.value (fun _ => (-1 # 1)%Q)) (fun q => q)
              examples.mixed_expression examples.zero2 "<"%string examples.g8
              (fun r => Ok (np.sum r)))
    as (con & g' & Hinit & _ & Hop & _ & _ & _ & Hviol);
    [discriminate|discriminate|discriminate|].
  exists con, g'. split; [exact Hinit|]. split; [exact Hop|]. exact Hviol.
Defined.

(** Two constraints built one after the other. *)
Lemma constraint_ids_and_names_witness :
  exists c1 g1' c2 g2',
    elementwise.__init__ algebra.sub examples.mixed_expression examples.zero2
                         "<=" examples.g8 = Ok (c1, g1')
    /\ elementwise.__init__ algebra.sub examples.zero2
                            examples.mixed_expression "==" g1' = Ok (c2, g2')
    /\ elementwise.id c2 = elementwise.id c1 + 1
    /\ elementwise.name c1 <> elementwise.name c2.
Proof.
  destruct (constraint_ids_and_names algebra.sub
              examples.mixed_expression examples.zero2
              examples.zero2 examples.mixed_expression "<=" "=="
              examples.g8
              (elementwise.next_constraint_id examples.g8))
    as (c1 & g1' & c2 & g2' & H1 & H2 & _ & _ & _ & _ & _ & _ & Hseq).
  cbn in H1. injection H1 as <- <-.
  eexists _, _, c2, g2'. split; [reflexivity|]. split; [exact H2|].
  exact (Hseq eq_refl).
Defined.

(** ** Further properties of the epigraph atoms *)

Lemma norms_rows (a : Z) (args : list base.ParsedArg) :
  let E := (0, (a, 1%Q)) :: arg_entries_from 0 args in
  row_of 0 (map fst E) (map (fun e => fst (snd e)) E)
         (map (fun e => snd (snd e)) E) = [(a, 1%Q)]
  /\ forall (k : nat) (arg : base.ParsedArg),
      nth_error args k = Some arg ->
      row_of (Z.of_nat k + 1) (map fst E) (map (fun e => fst (snd e)) E)
             (map (fun e => snd (snd e)) E)
      = map (fun vc => (base.id (fst vc), snd vc)) (base.arg_terms arg).
Proof.
  intros E. split.
  - rewrite row_of_entries. unfold E. cbn [filter fst Z.eqb map snd].
    rewrite filter_none; [reflexivity|].
    intros e He. apply arg_entries_from_rows_gt in He.
    apply Z.eqb_neq. lia.
  - intros k arg Hnth. rewrite row_of_entries. unfold E. cbn [filter fst].
    destruct (Z.eqb_spec 0 (Z.of_nat k + 1)) as [Heq|_]; [lia|].
    replace (Z.of_nat k + 1) with (0 + Z.of_nat k + 1) by lia.
    rewrite (arg_entries_from_row _ 0 k arg Hnth).
    unfold arg_entries. rewrite map_map. reflexivity.
Qed.

Lemma image_from_pointwise (rows cols : list Z) (vals : list Q) (x : Z -> Q)
    (bs ys : list Q) :
  List.length bs = List.length ys ->
  forall j : Z,
    (forall (i : nat) (b y : Q),
        nth_error bs i = Some b -> nth_error ys i = Some y ->
        (dot (row_of (j + Z.of_nat i) rows cols vals) x + b == y)%Q) ->
    Forall2 Qeq (image_from j rows cols vals bs x) ys.
Proof.
  revert ys. induction bs as [|b bs IH]; intros [|y ys] Hlen j H;
    try discriminate; cbn [image_from]; constructor.
  - specialize (H 0%nat b y eq_refl eq_refl).
    cbn [Z.of_nat] in H. now rewrite Z.add_0_r in H.
  - apply IH; [now injection Hlen|].
    intros i b' y' Hb Hy.
    replace (j + 1 + Z.of_nat i) with (j + Z.of_nat (S i)) by lia.
    now apply H.
Qed.

(** The fragment of an [Exponential] is in the order in which it is read. *)
Lemma exponential_in_protocol_order (self self' : exp.Exponential)
    (g g' : base.Globals) (out : fragment) :
  exp.epigraph_conic_form self g = Ok (out, self', g') ->
  in_protocol_order out = true.
Proof.
  rewrite exp_epigraph_closed. cbv zeta. intros H.
  injection H as <- _ _. reflexivity.
Qed.

(** X9: When no argument of a Vector2Norm has a constant term, the sparse
    matrix that [epigraph_conic_form] builds in its lists [A_rows], [A_cols]
    and [A_vals], with the offsets [b], maps [x] to the tuple
    (auxiliary, x_1, ..., x_n) that the second-order cone constrains.  This
    is about the lists as the code names them: the returned tuple holds them
    in the order (rows, columns, coefficients), which is not the order
    (coefficients, rows, columns) in which a fragment is read by position. *)
Theorem vector2norm_built_matrix_without_offsets (self : norms.Vector2Norm)
    (g : base.Globals) (x : Z -> Q) :
  Forall (fun arg => (base.arg_offset arg == 0)%Q) (norms.args self) ->
  exists (out : fragment) (rows cols : list Z) (vals b : list Q)
         (av : base.ScalarVariable)
         (self' : norms.Vector2Norm) (g' : base.Globals),
    norms.epigraph_conic_form self g = Ok (out, self', g')
    /\ out = (A_rows rows, A_cols cols, A_vals vals, b_vec b,
              K_list [ {| cones.type := "S";
                          cones.len := Z.of_nat (List.length b) |} ],
              aux av)
    /\ in_protocol_order out = false
    /\ Forall2 Qeq (affine_image rows cols vals b x)
               (x (base.id av)
                :: map (fun arg => arg_value arg x) (norms.args self)).
Proof.
  intros Hoff. rewrite norms_epigraph_closed. cbv zeta.
  set (av := fst (fst (norms.ensure_aux_var self g))).
  destruct (norms_rows (base.id av) (norms.args self)) as [Hrow0 Hrows].
  cbv zeta in Hrow0, Hrows.
  set (E := (0, (base.id av, 1%Q)) :: arg_entries_from 0 (norms.args self))
    in *.
  eexists _, (map fst E), (map (fun e => fst (snd e)) E),
    (map (fun e => snd (snd e)) E),
    (map base.arg_offset (norms.args self) ++ [0%Q]), av,
    (snd (fst (norms.ensure_aux_var self g))),
    (snd (norms.ensure_aux_var self g)).
  split; [reflexivity|]. split.
  { rewrite length_app, length_map. reflexivity. }
  split; [reflexivity|].
  unfold affine_image. apply image_from_pointwise.
  { rewrite length_app. cbn [List.length]. rewrite !length_map. lia. }
  assert (Hb : forall i b,
             nth_error (map base.arg_offset (norms.args self) ++ [0%Q]) i
             = Some b -> (b == 0)%Q).
  { intros i b Hi. apply nth_error_In in Hi. apply in_app_or in Hi as [Hi|Hi].
    - apply in_map_iff in Hi as [arg [<- Harg]].
      rewrite Forall_forall in Hoff. now apply Hoff.
    - destruct Hi as [<-|[]]. reflexivity. }
  intros [|k] b y Hnb Hny.
  - change (0 + Z.of_nat 0) with 0. rewrite Hrow0. injection Hny as <-. rewrite (Hb _ _ Hnb).
    cbn [dot fold_right fst snd]. ring.
  - cbn [nth_error] in Hny. rewrite nth_error_map in Hny.
    destruct (nth_error (norms.args self) k) as [arg|] eqn:Harg;
      [|discriminate].
    injection Hny as <-.
    replace (0 + Z.of_nat (S k)) with (Z.of_nat k + 1) by lia.
    rewrite (Hrows k arg Harg), (Hb _ _ Hnb). unfold arg_value.
    rewrite Forall_forall in Hoff.
    rewrite (Hoff arg (nth_error_In _ _ Harg)). ring.
Qed.

(** The norm of the two arguments [3 v7] and [v7], with [v7 = 1] and the
    auxiliary variable (id 8) at 4. *)
Lemma vector2norm_built_matrix_without_offsets_witness :
  let args :=
    [ {| base.arg_terms := [(examples.v7, 3%Q)]; base.arg_offset := 0%Q |};
      {| base.arg_terms := [(examples.v7, 1%Q)]; base.arg_offset := 0%Q |} ] in
  let x := fun k : Z => if k =? 8 then 4%Q else 1%Q in
  exists (out : fragment) (rows cols : list Z) (vals b : list Q)
         (av : base.ScalarVariable)
         (self' : norms.Vector2Norm) (g' : base.Globals),
    norms.epigraph_conic_form (fst (norms.__init__ args examples.g8))
                              (snd (norms.__init__ args examples.g8))
    = Ok (out, self', g')
    /\ out = (A_rows rows, A_cols cols, A_vals vals, b_vec b,
              K_list [ {| cones.type := "S";
                          cones.len := Z.of_nat (List.length b) |} ],
              aux av)
    /\ in_protocol_order out = false
    /\ Forall2 Qeq (affine_image rows cols vals b x)
               (x (base.id av)
                :: map (fun arg => arg_value arg x) args).
Proof.
  intros args x.
  apply (vector2norm_built_matrix_without_offsets
           (fst (norms.__init__ args examples.g8))
           (snd (norms.__init__ args examples.g8)) x).
  repeat constructor.
Defined.

Lemma exp_ensure_frame (self : exp.Exponential) (g : base.Globals) :
  let av := fst (fst (exp.ensure_aux_var self g)) in
  let self' := snd (fst (exp.ensure_aux_var self g)) in
  let g' := snd (exp.ensure_aux_var self g) in
  exp._id self' = exp._id self
  /\ base._EXPONENTIAL_COUNTER_ g' = base._EXPONENTIAL_COUNTER_ g
  /\ base._VECTOR_2_NORM_COUNTER_ g' = base._VECTOR_2_NORM_COUNTER_ g
  /\ base._ELEMENTWISE_CONSTRAINT_ID_ g' = base._ELEMENTWISE_CONSTRAINT_ID_ g
  /\ match exp.aux_var self with
     | None => base.id av = base.curr_variable_count g
               /\ base.curr_variable_count g' = base.curr_variable_count g + 1
     | Some v => av = v /\ g' = g
     end.
Proof.
  unfold exp.ensure_aux_var. destruct (exp.aux_var self); cbn; auto 10.
Qed.

Lemma norms_ensure_frame (self : norms.Vector2Norm) (g : base.Globals) :
  let av := fst (fst (norms.ensure_aux_var self g)) in
  let self' := snd (fst (norms.ensure_aux_var self g)) in
  let g' := snd (norms.ensure_aux_var self g) in
  norms._id self' = norms._id self
  /\ base._EXPONENTIAL_COUNTER_ g' = base._EXPONENTIAL_COUNTER_ g
  /\ base._VECTOR_2_NORM_COUNTER_ g' = base._VECTOR_2_NORM_COUNTER_ g
  /\ base._ELEMENTWISE_CONSTRAINT_ID_ g' = base._ELEMENTWISE_CONSTRAINT_ID_ g
  /\ match norms.aux_var self with
     | None => base.id av = base.curr_variable_count g
               /\ base.curr_variable_count g' = base.curr_variable_count g + 1
     | Some v => av = v /\ g' = g
     end.
Proof.
  unfold norms.ensure_aux_var. destruct (norms.aux_var self); cbn; auto 10.
Qed.

(** X10: Compiling an Exponential touches nothing but the variable counter,
    which grows by at most one, and keeps the atom's id and argument; when
    the ids of the argument's variables (and of an auxiliary variable
    already cached) are below the variable count, every emitted column
    index lies in the column space [0, count) of the state it leaves. *)
Theorem exponential_fragment_in_column_space (self : exp.Exponential)
    (g : base.Globals) :
  0 <= base.curr_variable_count g ->
  Forall (fun vc => 0 <= base.id (fst vc) < base.curr_variable_count g)
         (base.arg_terms (exp.args self)) ->
  (forall v, exp.aux_var self = Some v ->
             0 <= base.id v < base.curr_variable_count g) ->
  exists (vals : list Q) (rows cols : list Z) (b : list Q)
         (K : list cones.Cone) (av : base.ScalarVariable)
         (self' : exp.Exponential) (g' : base.Globals),
    exp.epigraph_conic_form self g
    = Ok ((A_vals vals, A_rows rows, A_cols cols, b_vec b, K_list K, aux av),
          self', g')
    /\ Forall (fun col => 0 <= col < base.curr_variable_count g') cols
    /\ base.curr_variable_count g <= base.curr_variable_count g'
       <= base.curr_variable_count g + 1
    /\ base._EXPONENTIAL_COUNTER_ g' = base._EXPONENTIAL_COUNTER_ g
    /\ base._VECTOR_2_NORM_COUNTER_ g' = base._VECTOR_2_NORM_COUNTER_ g
    /\ base._ELEMENTWISE_CONSTRAINT_ID_ g' = base._ELEMENTWISE_CONSTRAINT_ID_ g
    /\ exp._id self' = exp._id self
    /\ exp.args self' = exp.args self.
Proof.
  intros Hcount Hids Haux. rewrite exp_epigraph_closed. cbv zeta.
  destruct (exp_ensure_args self g) as [Hargs _].
  destruct (exp_ensure_frame self g) as (Hid & He & Hn & Hc & Hav).
  cbv zeta in Hid, He, Hn, Hc, Hav.
  set (av := fst (fst (exp.ensure_aux_var self g))) in *.
  set (g' := snd (exp.ensure_aux_var self g)) in *.
  assert (Hrange : 0 <= base.id av < base.curr_variable_count g'
                   /\ base.curr_variable_count g
                      <= base.curr_variable_count g'
                      <= base.curr_variable_count g + 1).
  { destruct (exp.aux_var self) as [v|] eqn:Hv.
    - destruct Hav as [-> ->]. specialize (Haux v eq_refl). lia.
    - destruct Hav as [Hav1 Hav2]. lia. }
  eexists _, _, _, _, _, _, _, _. split; [reflexivity|].
  split.
  - rewrite map_app, map_map. cbn [map fst snd].
    apply Forall_app. split.
    + rewrite Forall_forall in *. intros col Hcol.
      apply in_map_iff in Hcol as [vc [<- Hvc]].
      specialize (Hids vc Hvc). lia.
    + repeat constructor; lia.
  - repeat (split; [assumption || lia|]). exact Hargs.
Qed.

(** X11: The same for a Vector2Norm. *)
Theorem vector2norm_fragment_in_column_space (self : norms.Vector2Norm)
    (g : base.Globals) :
  0 <= base.curr_variable_count g ->
  Forall (fun arg =>
            Forall (fun vc => 0 <= base.id (fst vc)
                                < base.curr_variable_count g)
                   (base.arg_terms arg))
         (norms.args self) ->
  (forall v, norms.aux_var self = Some v ->
             0 <= base.id v < base.curr_variable_count g) ->
  exists (rows cols : list Z) (vals b : list Q)
         (K : list cones.Cone) (av : base.ScalarVariable)
         (self' : norms.Vector2Norm) (g' : base.Globals),
    norms.epigraph_conic_form self g
    = Ok ((A_rows rows, A_cols cols, A_vals vals, b_vec b, K_list K, aux av),
          self', g')
    /\ Forall (fun col => 0 <= col < base.curr_variable_count g') cols
    /\ List.length rows = List.length vals
    /\ List.length cols = List.length vals
    /\ Forall (fun r => 0 <= r < Z.of_nat (List.length b)) rows
    /\ base.curr_variable_count g <= base.curr_variable_count g'
       <= base.curr_variable_count g + 1
    /\ base._EXPONENTIAL_COUNTER_ g' = base._EXPONENTIAL_COUNTER_ g
    /\ base._VECTOR_2_NORM_COUNTER_ g' = base._VECTOR_2_NORM_COUNTER_ g
    /\ base._ELEMENTWISE_CONSTRAINT_ID_ g' = base._ELEMENTWISE_CONSTRAINT_ID_ g
    /\ norms._id self' = norms._id self
    /\ norms.args self' = norms.args self.
Proof.
  intros Hcount Hids Haux. rewrite norms_epigraph_closed. cbv zeta.
  destruct (norms_ensure_args self g) as [Hargs _].
  destruct (norms_ensure_frame self g) as (Hid & He & Hn & Hc & Hav).
  cbv zeta in Hid, He, Hn, Hc, Hav.
  set (av := fst (fst (norms.ensure_aux_var self g))) in *.
  set (g' := snd (norms.ensure_aux_var self g)) in *.
  assert (Hrange : 0 <= base.id av < base.curr_variable_count g'
                   /\ base.curr_variable_count g
                      <= base.curr_variable_count g'
                      <= base.curr_variable_count g + 1).
  { destruct (norms.aux_var self) as [v|] eqn:Hv.
    - destruct Hav as [-> ->]. specialize (Haux v eq_refl). lia.
    - destruct Hav as [Hav1 Hav2]. lia. }
  eexists _, _, _, _, _, _, _, _. split; [reflexivity|].
  split; [|split; [|split; [|split]]].
  - cbn [map fst snd]. constructor; [lia|].
    rewrite Forall_forall. intros col Hcol.
    apply in_map_iff in Hcol as [e [<- He']].
    assert (Hin : forall todo j,
               In e (arg_entries_from j todo) ->
               exists arg vc, In arg todo /\ In vc (base.arg_terms arg)
                              /\ fst (snd e) = base.id (fst vc)).
    { induction todo as [|arg rest IH]; intros j Hj; [destruct Hj|].
      cbn [arg_entries_from] in Hj. apply in_app_or in Hj as [Hj|Hj].
      - apply in_map_iff in Hj as [vc [<- Hvc]].
        exists arg, vc. repeat split; [now left|exact Hvc].
      - apply IH in Hj as (arg' & vc & Ha & Hvc & Heq).
        exists arg', vc. repeat split; [now right|exact Hvc|exact Heq]. }
    apply Hin in He' as (arg & vc & Harg & Hvc & ->).
    rewrite Forall_forall in Hids. specialize (Hids arg Harg).
    rewrite Forall_forall in Hids. specialize (Hids vc Hvc). lia.
  - now rewrite !length_map.
  - now rewrite !length_map.
  - rewrite length_app, length_map. cbn [map fst List.length].
    constructor; [lia|].
    rewrite Forall_forall. intros r Hr.
    apply in_map_iff in Hr as [e [<- He']].
    assert (Hin : forall todo j,
               In e (arg_entries_from j todo) ->
               j + 1 <= fst e <= j + Z.of_nat (List.length todo)).
    { induction todo as [|arg rest IH]; intros j Hj; [destruct Hj|].
      cbn [arg_entries_from] in Hj. apply in_app_or in Hj as [Hj|Hj].
      - apply in_map_iff in Hj as [vc [<- Hvc]]. cbn [fst List.length]. lia.
      - apply IH in Hj. cbn [List.length]. lia. }
    apply Hin in He'. lia.
  - repeat (split; [assumption || lia|]). exact Hargs.
Qed.

(** [exp(3 v7 + 5)], fresh, with eight variables allocated. *)
Lemma exponential_fragment_in_column_space_witness :
  exists (vals : list Q) (rows cols : list Z) (b : list Q)
         (K : list cones.Cone) (av : base.ScalarVariable)
         (self' : exp.Exponential) (g' : base.Globals),
    exp.epigraph_conic_form
      (fst (exp.__init__ examples.arg_3v7_plus_5 examples.g8))
      (snd (exp.__init__ examples.arg_3v7_plus_5 examples.g8))
    = Ok ((A_vals vals, A_rows rows, A_cols cols, b_vec b, K_list K, aux av),
          self', g')
    /\ Forall (fun col => 0 <= col < base.curr_variable_count g') cols
    /\ base.curr_variable_count g' = 9.
Proof.
  destruct (exponential_fragment_in_column_space
              (fst (exp.__init__ examples.arg_3v7_plus_5 examples.g8))
              (snd (exp.__init__ examples.arg_3v7_plus_5 examples.g8)))
    as (vals & rows & cols & b & K & av & self' & g' & Hcf & Hcols & _).
  - cbn. lia.
  - repeat constructor; cbn; lia.
  - intros v Hv. discriminate Hv.
  - exists vals, rows, cols, b, K, av, self', g'.
    split; [exact Hcf|]. split; [exact Hcols|].
    cbn in Hcf. injection Hcf as _ _ _ _ _ _ _ <-. reflexivity.
Defined.

(** The norm of [(3 v7 + 5)], fresh, with eight variables allocated. *)
Lemma vector2norm_fragment_in_column_space_witness :
  exists (rows cols : list Z) (vals b : list Q)
         (K : list cones.Cone) (av : base.ScalarVariable)
         (self' : norms.Vector2Norm) (g' : base.Globals),
    norms.epigraph_conic_form
      (fst (norms.__init__ [examples.arg_3v7_plus_5] examples.g8))
      (snd (norms.__init__ [examples.arg_3v7_plus_5] examples.g8))
    = Ok ((A_rows rows, A_cols cols, A_vals vals, b_vec b, K_list K, aux av),
          self', g')
    /\ Forall (fun col => 0 <= col < base.curr_variable_count g') cols.
Proof.
  destruct (vector2norm_fragment_in_column_space
              (fst (norms.__init__ [examples.arg_3v7_plus_5] examples.g8))
              (snd (norms.__init__ [examples.arg_3v7_plus_5] examples.g8)))
    as (rows & cols & vals & b & K & av & self' & g' & Hcf & Hcols & _).
  - cbn. lia.
  - repeat constructor; cbn; lia.
  - intros v Hv. discriminate Hv.
  - exists rows, cols, vals, b, K, av, self', g'.
    split; [exact Hcf|exact Hcols].
Defined.

(** ** [weighted_sum_exp] *)


Lemma dict_insert_length {K V : Type} (eqb : K -> K -> bool)
    (d : list (K * V)) (k : K) (v : V) :
  (1 <= List.length (dict_insert eqb d k v) <= S (List.length d))%nat.
Proof.
  induction d as [|[k' v'] d IH]; cbn [dict_insert List.length]; [lia|].
  destruct (eqb k k'); cbn [List.length]; lia.
Qed.



Section weighted_sum_exp_facts.

Variable parse_arg : expressions.ScalarExpression -> result base.ParsedArg.
Variable exponential_eqb : exp.Exponential -> exp.Exponential -> bool.


(** X7: [weighted_sum_exp] checks the weights before the sizes: a negative
    weight is an error whatever the sizes, and with nonnegative weights a
    size mismatch is the error 'Incompatible arguments.'. *)
Theorem weighted_sum_exp_rejects (c : list Q) (x : expressions.Expression)
    (g : base.Globals) :
  (Exists (fun ci => ci < 0)%Q c ->
   weighted_sum_exp parse_arg exponential_eqb c x g
   = Raise (RuntimeError
              "Epigraphs of non-constant signomials with negative terms are not supported."))
  /\ (Forall (fun ci => 0 <= ci)%Q c ->
      List.length x <> List.length c ->
      weighted_sum_exp parse_arg exponential_eqb c x g
      = Raise (RuntimeError "Incompatible arguments.")).
Proof.
  unfold weighted_sum_exp. split.
  - intros Hneg.
    assert (H : existsb (fun ci => negb (Qle_bool 0 ci)) c = true).
    { apply existsb_exists. apply Exists_exists in Hneg as [ci [Hin Hlt]].
      exists ci. split; [exact Hin|].
      destruct (Qle_bool 0 ci) eqn:Hb; [|reflexivity].
      apply Qle_bool_iff in Hb. exfalso. now apply (Qlt_not_le _ _ Hlt). }
    now rewrite H.
  - intros Hpos Hlen.
    assert (H : existsb (fun ci => negb (Qle_bool 0 ci)) c = false).
    { apply not_true_is_false. intros Hex.
      apply existsb_exists in Hex as [ci [Hin Hb]].
      rewrite Forall_forall in Hpos. apply Hpos, Qle_bool_iff in Hin.
      now rewrite Hin in Hb. }
    rewrite H. apply Nat.eqb_neq in Hlen. now rewrite Hlen.
Qed.


End weighted_sum_exp_facts.

(** The weights [(-1, 2)] are refused whatever the arguments; the weights
    [(1, 2)] with a single argument are a size mismatch. *)
Lemma weighted_sum_exp_rejects_witness :
  weighted_sum_exp example_parse_arg example_exponential_eqb
                   [(-1 # 1)%Q; 2%Q] [algebra.var 7] examples.g8
  = Raise (RuntimeError
             "Epigraphs of non-constant signomials with negative terms are not supported.")
  /\ weighted_sum_exp example_parse_arg example_exponential_eqb
                      [1%Q; 2%Q] [algebra.var 7] examples.g8
     = Raise (RuntimeError "Incompatible arguments.").
Proof.
  split.
  - apply (proj1 (weighted_sum_exp_rejects example_parse_arg
                    example_exponential_eqb [(-1 # 1)%Q; 2%Q]
                    [algebra.var 7] examples.g8)).
    constructor. reflexivity.
  - apply (proj2 (weighted_sum_exp_rejects example_parse_arg
                    example_exponential_eqb [1%Q; 2%Q]
                    [algebra.var 7] examples.g8)).
    + repeat constructor; discriminate.
    + discriminate.
Defined.


(** ** The SAGE cone: projection and allocation of variables *)

Lemma dict_get_insert {V : Type} (d : list (Z * V)) (k : Z) (v : V) (k' : Z) :
  dict_get (dict_insert Z.eqb d k v) k'
  = if k' =? k then Some v else dict_get d k'.
Proof.
  induction d as [|[k0 v0] d IH]; cbn [dict_insert dict_get].
  - reflexivity.
  - destruct (Z.eqb_spec k k0) as [->|Hne]; cbn [dict_get].
    + destruct (k' =? k0); reflexivity.
    + rewrite IH. destruct (Z.eqb_spec k' k0) as [->|Hne'].
      * destruct (Z.eqb_spec k0 k); [congruence|reflexivity].
      * reflexivity.
Qed.

Lemma dict_insert_ids (d : list (Z * VariableArray)) (k : Z)
    (v : VariableArray) (x : Z) :
  In x (dict_ids (dict_insert Z.eqb d k v)) ->
  In x (dict_ids d) \/ In x (map base.id (scalar_variables v)).
Proof.
  unfold dict_ids. induction d as [|[k0 v0] d IH];
    cbn [dict_insert flat_map snd].
  - rewrite app_nil_r. now right.
  - destruct (k =? k0); cbn [flat_map snd]; rewrite !in_app_iff.
    + intros [H|H]; [now right|left; now right].
    + intros [H|H]; [left; now left|].
      destruct (IH H) as [H'|H']; [left; now right|now right].
Qed.

Lemma Variable_vector_spec (k : nat) (name : string) (g : base.Globals) :
  let v := fst (Variable_vector k name g) in
  let g' := snd (Variable_vector k name g) in
  List.length (scalar_variables v) = k
  /\ (forall x, In x (map base.id (scalar_variables v)) <->
                base.curr_variable_count g <= x
                < base.curr_variable_count g + Z.of_nat k)
  /\ base.curr_variable_count g'
     = base.curr_variable_count g + Z.of_nat k
  /\ base._EXPONENTIAL_COUNTER_ g' = base._EXPONENTIAL_COUNTER_ g
  /\ base._VECTOR_2_NORM_COUNTER_ g' = base._VECTOR_2_NORM_COUNTER_ g
  /\ base._ELEMENTWISE_CONSTRAINT_ID_ g' = base._ELEMENTWISE_CONSTRAINT_ID_ g.
Proof.
  cbn. split; [now rewrite length_map, length_seq|].
  split; [|repeat split].
  intros x. rewrite map_map. cbn [base.id]. rewrite in_map_iff. split.
  - intros [j [<- Hj]]. apply in_seq in Hj. lia.
  - intros Hx. exists (Z.to_nat (x - base.curr_variable_count g)).
    split; [lia|]. apply in_seq. lia.
Qed.

Section initialize.

Variable ech : ExpCoverHelper.
Variable name : string.

Lemma initialize_loop_spec (todo : list Z) :
  forall (st : SageVariables) (g : base.Globals),
    let st' := fst (initialize_loop ech name todo st g) in
    let g' := snd (initialize_loop ech name todo st g) in
    base.curr_variable_count g'
    = base.curr_variable_count g + Z.of_nat (total_needed ech todo)
    /\ base._EXPONENTIAL_COUNTER_ g' = base._EXPONENTIAL_COUNTER_ g
    /\ base._VECTOR_2_NORM_COUNTER_ g' = base._VECTOR_2_NORM_COUNTER_ g
    /\ base._ELEMENTWISE_CONSTRAINT_ID_ g' = base._ELEMENTWISE_CONSTRAINT_ID_ g
    /\ _variables st' = _variables st
    /\ (forall k, In k todo ->
                  exists v, dict_get (c_vars st') k = Some v
                            /\ List.length (scalar_variables v)
                               = c_length ech k)
    /\ (forall k, ~ In k todo ->
                  dict_get (c_vars st') k = dict_get (c_vars st) k)
    /\ (forall k, In k todo -> (0 < nu_length ech k)%nat ->
                  exists v w,
                    dict_get (nu_vars st') k = Some v
                    /\ dict_get (relent_epi_vars st') k = Some w
                    /\ List.length (scalar_variables v) = nu_length ech k
                    /\ List.length (scalar_variables w) = nu_length ech k)
    /\ (forall k, ~ In k todo \/ nu_length ech k = 0%nat ->
                  dict_get (nu_vars st') k = dict_get (nu_vars st) k
                  /\ dict_get (relent_epi_vars st') k
                     = dict_get (relent_epi_vars st) k)
    /\ (forall x,
           In x (dict_ids (nu_vars st') ++ dict_ids (c_vars st')
                 ++ dict_ids (relent_epi_vars st')) ->
           In x (dict_ids (nu_vars st) ++ dict_ids (c_vars st)
                 ++ dict_ids (relent_epi_vars st))
           \/ base.curr_variable_count g <= x < base.curr_variable_count g').
Proof.
  induction todo as [|i rest IH]; intros st g.
  - cbn. repeat split; try lia; try tauto.
  - cbn [initialize_loop].
    fold (nu_length ech i).
    (* the variables of index i *)
    set (n1 := ("nu^{(" ++ str i ++ ")}_{" ++ name ++ "}")%string).
    set (n2 := ("_relent_epi_^{(" ++ str i ++ ")}_{" ++ name ++ "}")%string).
    set (n3 := ("c^{(" ++ str i ++ ")}_{" ++ name ++ "}")%string).
    set (c_len := if negb (contains (N_I ech) i) then (nu_length ech i + 1)%nat
                  else nu_length ech i).
    assert (Hclen : c_len = c_length ech i).
    { unfold c_len, c_length. fold (nu_length ech i).
      destruct (contains (N_I ech) i); cbn; lia. }
    destruct (0 <? nu_length ech i)%nat eqn:Hpos.
    + (* a nonempty cover *)
      pose proof (Variable_vector_spec (nu_length ech i) n1 g) as S1.
      destruct (Variable_vector (nu_length ech i) n1 g) as [nu_i g1].
      pose proof (Variable_vector_spec (nu_length ech i) n2 g1) as S2.
      destruct (Variable_vector (nu_length ech i) n2 g1) as [epi_i g2].
      pose proof (Variable_vector_spec c_len n3 g2) as S3.
      destruct (Variable_vector c_len n3 g2) as [c_i g3].
      cbv zeta in S1, S2, S3. cbn [fst snd] in S1, S2, S3.
      destruct S1 as (L1 & I1 & C1 & E1 & N1 & W1).
      destruct S2 as (L2 & I2 & C2 & E2 & N2 & W2).
      destruct S3 as (L3 & I3 & C3 & E3 & N3 & W3).
      match goal with
      | |- context [initialize_loop ech name rest ?s ?gg] =>
          specialize (IH s gg); set (st1 := s) in *
      end.
      cbv zeta in IH.
      destruct IH as (HC & HE & HN & HW & HV & Hc & Hc' & Hnu & Hnu' & Hids).
      apply Nat.ltb_lt in Hpos.
      assert (Hneed : Z.of_nat (total_needed ech (i :: rest))
                      = Z.of_nat (nu_length ech i) + Z.of_nat (nu_length ech i)
                        + Z.of_nat c_len + Z.of_nat (total_needed ech rest)).
      { cbn [total_needed fold_right]. fold (total_needed ech rest).
        unfold variables_needed. fold (nu_length ech i). rewrite Hclen.
        unfold c_length. fold (nu_length ech i). lia. }
      split; [lia|]. split; [congruence|]. split; [congruence|].
      split; [congruence|]. split; [exact HV|].
      split; [|split; [|split; [|split]]].
      * intros k Hk. destruct (in_dec Z.eq_dec k rest) as [Hin|Hnin].
        -- now apply Hc.
        -- destruct Hk as [<-|Hk]; [|contradiction].
           rewrite (Hc' i Hnin). unfold st1. cbn [c_vars].
           rewrite dict_get_insert, Z.eqb_refl.
           exists c_i. split; [reflexivity|]. congruence.
      * intros k Hk. rewrite Hc' by (intros H; apply Hk; now right).
        unfold st1. cbn [c_vars]. rewrite dict_get_insert.
        destruct (Z.eqb_spec k i) as [->|_]; [|reflexivity].
        exfalso. apply Hk. now left.
      * intros k Hk Hpk. destruct (in_dec Z.eq_dec k rest) as [Hin|Hnin].
        -- now apply Hnu.
        -- destruct Hk as [<-|Hk]; [|contradiction].
           destruct (Hnu' i (or_introl Hnin)) as [Ha Hb].
           rewrite Ha, Hb. unfold st1. cbn [nu_vars relent_epi_vars].
           rewrite !dict_get_insert, Z.eqb_refl.
           exists nu_i, epi_i. repeat split; assumption.
      * intros k Hk.
        assert (Hk' : ~ In k rest \/ nu_length ech k = 0%nat).
        { destruct Hk as [Hk|Hk]; [left|now right].
          intros H. apply Hk. now right. }
        destruct (Hnu' k Hk') as [Ha Hb]. rewrite Ha, Hb.
        unfold st1. cbn [nu_vars relent_epi_vars].
        rewrite !dict_get_insert.
        destruct (Z.eqb_spec k i) as [->|_]; [|now split].
        exfalso. destruct Hk as [Hk|Hk]; [apply Hk; now left|lia].
      * intros x Hx. apply Hids in Hx as [Hx|Hx]; [|right; lia].
        unfold st1 in Hx. cbn [nu_vars c_vars relent_epi_vars] in Hx.
        rewrite !in_app_iff in Hx. rewrite !in_app_iff.
        destruct Hx as [Hx|[Hx|Hx]]; apply dict_insert_ids in Hx as [Hx|Hx];
          try (left; tauto); right.
        -- apply I1 in Hx. lia.
        -- apply I3 in Hx. lia.
        -- apply I2 in Hx. lia.
    + (* an empty cover *)
      pose proof (Variable_vector_spec c_len n3 g) as S3.
      destruct (Variable_vector c_len n3 g) as [c_i g3].
      cbv zeta in S3. cbn [fst snd] in S3.
      destruct S3 as (L3 & I3 & C3 & E3 & N3 & W3).
      match goal with
      | |- context [initialize_loop ech name rest ?s ?gg] =>
          specialize (IH s gg); set (st1 := s) in *
      end.
      cbv zeta in IH.
      destruct IH as (HC & HE & HN & HW & HV & Hc & Hc' & Hnu & Hnu' & Hids).
      apply Nat.ltb_ge in Hpos.
      assert (Hneed : Z.of_nat (total_needed ech (i :: rest))
                      = Z.of_nat c_len + Z.of_nat (total_needed ech rest)).
      { cbn [total_needed fold_right]. fold (total_needed ech rest).
        unfold variables_needed. fold (nu_length ech i). rewrite Hclen.
        unfold c_length. fold (nu_length ech i). lia. }
      split; [lia|]. split; [congruence|]. split; [congruence|].
      split; [congruence|]. split; [exact HV|].
      split; [|split; [|split; [|split]]].
      * intros k Hk. destruct (in_dec Z.eq_dec k rest) as [Hin|Hnin].
        -- now apply Hc.
        -- destruct Hk as [<-|Hk]; [|contradiction].
           rewrite (Hc' i Hnin). unfold st1. cbn [c_vars].
           rewrite dict_get_insert, Z.eqb_refl.
           exists c_i. split; [reflexivity|]. congruence.
      * intros k Hk. rewrite Hc' by (intros H; apply Hk; now right).
        unfold st1. cbn [c_vars]. rewrite dict_get_insert.
        destruct (Z.eqb_spec k i) as [->|_]; [|reflexivity].
        exfalso. apply Hk. now left.
      * intros k Hk Hpk. destruct (in_dec Z.eq_dec k rest) as [Hin|Hnin].
        -- now apply Hnu.
        -- destruct Hk as [<-|Hk]; [|contradiction]. lia.
      * intros k Hk.
        assert (Hk' : ~ In k rest \/ nu_length ech k = 0%nat).
        { destruct Hk as [Hk|Hk]; [left|now right].
          intros H. apply Hk. now right. }
        destruct (Hnu' k Hk') as [Ha Hb]. rewrite Ha, Hb. now split.
      * intros x Hx. apply Hids in Hx as [Hx|Hx]; [|right; lia].
        unfold st1 in Hx. cbn [nu_vars c_vars relent_epi_vars] in Hx.
        rewrite !in_app_iff in Hx. rewrite !in_app_iff.
        destruct Hx as [Hx|[Hx|Hx]]; try (left; tauto).
        apply dict_insert_ids in Hx as [Hx|Hx]; [left; tauto|right].
        apply I3 in Hx. lia.
Qed.

End initialize.

(** X14: Allocation by [_initialize_variables].  With [m <= 2] nothing is
    allocated.  With [m > 2] the variable counter advances by the sum, over
    the indices of [U_I], of three times the size of the cover plus one when
    the index is not in [N_I]; the other counters stay; exactly the indices
    of [U_I] get a [c] variable, of the size of the cover plus that one;
    exactly those with a nonempty cover get [nu] and epigraph variables, of
    the size of the cover; every id held by these variables was allocated by
    the call; and the variables are appended to those of [c]. *)
Theorem initialize_variables_allocation (ech : ExpCoverHelper)
    (self : ordinary_sage_cone.PrimalOrdinarySageCone)
    (c_variables : list VariableArray) (g : base.Globals) :
  let st := fst (_initialize_variables self ech c_variables g) in
  let g' := snd (_initialize_variables self ech c_variables g) in
  (ordinary_sage_cone.m self <= 2 ->
   g' = g /\ nu_vars st = [] /\ c_vars st = [] /\ relent_epi_vars st = []
   /\ _variables st = c_variables)
  /\ (2 < ordinary_sage_cone.m self ->
      base.curr_variable_count g'
      = base.curr_variable_count g + Z.of_nat (total_needed ech (U_I ech))
      /\ base._EXPONENTIAL_COUNTER_ g' = base._EXPONENTIAL_COUNTER_ g
      /\ base._VECTOR_2_NORM_COUNTER_ g' = base._VECTOR_2_NORM_COUNTER_ g
      /\ base._ELEMENTWISE_CONSTRAINT_ID_ g'
         = base._ELEMENTWISE_CONSTRAINT_ID_ g
      /\ (forall k, In k (U_I ech) ->
                    exists v, dict_get (c_vars st) k = Some v
                              /\ List.length (scalar_variables v)
                                 = c_length ech k)
      /\ (forall k, ~ In k (U_I ech) -> dict_get (c_vars st) k = None)
      /\ (forall k, In k (U_I ech) -> (0 < nu_length ech k)%nat ->
                    exists v w,
                      dict_get (nu_vars st) k = Some v
                      /\ dict_get (relent_epi_vars st) k = Some w
                      /\ List.length (scalar_variables v) = nu_length ech k
                      /\ List.length (scalar_variables w) = nu_length ech k)
      /\ (forall k, ~ In k (U_I ech) \/ nu_length ech k = 0%nat ->
                    dict_get (nu_vars st) k = None
                    /\ dict_get (relent_epi_vars st) k = None)
      /\ (forall x,
             In x (dict_ids (nu_vars st) ++ dict_ids (c_vars st)
                   ++ dict_ids (relent_epi_vars st)) ->
             base.curr_variable_count g <= x < base.curr_variable_count g')
      /\ _variables st
         = ((c_variables ++ map snd (nu_vars st)) ++ map snd (c_vars st))
           ++ map snd (relent_epi_vars st)).
Proof.
  cbv zeta. unfold _initialize_variables. split.
  - intros Hm. destruct (Z.ltb_spec 2 (ordinary_sage_cone.m self)); [lia|].
    cbn. repeat split.
  - intros Hm. destruct (Z.ltb_spec 2 (ordinary_sage_cone.m self)); [|lia].
    pose proof (initialize_loop_spec ech (ordinary_sage_cone.name self)
                  (U_I ech)
                  {| nu_vars := []; c_vars := []; relent_epi_vars := [];
                     _variables := c_variables |} g) as S.
    cbv zeta in S.
    destruct (initialize_loop ech (ordinary_sage_cone.name self) (U_I ech)
                {| nu_vars := []; c_vars := []; relent_epi_vars := [];
                   _variables := c_variables |} g) as [st g'].
    cbn [fst snd nu_vars c_vars relent_epi_vars _variables dict_get
         dict_ids flat_map app] in *.
    destruct S as (HC & HE & HN & HW & HV & Hc & Hc' & Hnu & Hnu' & Hids).
    repeat (split; [assumption|]).
    split; [|rewrite HV; reflexivity].
    intros x Hx. destruct (Hids x Hx) as [[]|H']; exact H'.
Qed.

(** The helper with indices 0 (cover of two terms) and 3 (empty cover, in
    [N_I]) on a cone of four terms: 2 + 2 + 3 variables for index 0 and none
    for index 3. *)
Lemma initialize_variables_allocation_witness :
  base.curr_variable_count
    (snd (_initialize_variables example_cone example_ech [] examples.g8))
  = 8 + 7
  /\ exists v,
      dict_get (c_vars (fst (_initialize_variables example_cone example_ech
                               [] examples.g8))) 0 = Some v
      /\ List.length (scalar_variables v) = 3%nat.
Proof.
  destruct (initialize_variables_allocation example_ech example_cone
              [] examples.g8) as [_ H].
  destruct H as (HC & _ & _ & _ & Hc & _); [cbn; lia|].
  split; [exact HC|]. apply (Hc 0). now left.
Defined.

Lemma negative_part_nonneg (x : list Q) :
  Forall (fun y => 0 <= y)%Q x -> negative_part x = map (fun _ => 0%Q) x.
Proof.
  induction 1 as [|y x Hy _ IH]; cbn [negative_part map]; [reflexivity|].
  apply Qle_bool_iff in Hy. rewrite Hy. f_equal. exact IH.
Qed.

Section sage_nonnegative.

Variable value : expressions.Expression -> list Q.
Variable sqrt : Q -> Q.
Variable solve_projection : list Q -> list (list Q) -> result Q.
Variable rough_violation :
  ordinary_sage_cone.PrimalOrdinarySageCone -> list Q -> np.ord_arg
  -> result Q.

(** X12: Without [rough], the violation of a cone whose [c] is entrywise
    nonnegative is 0 whatever [m] is, and the external solver is not
    consulted; with [m > 2] and a negative entry the violation is what the
    solver returns for the projection. *)
Theorem sage_violation_of_nonnegative
    (self : ordinary_sage_cone.PrimalOrdinarySageCone) :
  (Forall (fun y => 0 <= y)%Q (value (ordinary_sage_cone.c self)) ->
   2 < ordinary_sage_cone.m self
   \/ value (ordinary_sage_cone.c self) <> [] ->
   ordinary_sage_cone.violation
     value sqrt (violation_large solve_projection rough_violation)
     self np.ord_inf false = Ok 0%Q)
  /\ (Exists (fun y => y < 0)%Q (value (ordinary_sage_cone.c self)) ->
      2 < ordinary_sage_cone.m self ->
      forall ord,
        ordinary_sage_cone.violation
          value sqrt (violation_large solve_projection rough_violation)
          self ord false
        = solve_projection (value (ordinary_sage_cone.c self))
                           (ordinary_sage_cone.alpha self)).
Proof.
  split.
  - intros Hpos Hm.
    destruct (Z.ltb_spec 2 (ordinary_sage_cone.m self)) as [Hlt|Hle].
    + unfold ordinary_sage_cone.violation. cbn [np.array fst snd].
      apply Z.ltb_lt in Hlt. rewrite Hlt.
      unfold violation_large, project. cbn [negb np.tolist np.data app nth List.length].
      assert (H : forallb (fun y => Qle_bool 0 y)
                          (value (ordinary_sage_cone.c self)) = true).
      { apply forallb_forall. intros y Hy. rewrite Forall_forall in Hpos.
        now apply Qle_bool_iff, Hpos. }
      now rewrite H.
    + destruct Hm as [Hm|Hne]; [lia|].
      rewrite (violation_small value sqrt _ self np.ord_inf false Hle).
      rewrite (negative_part_nonneg _ Hpos).
      destruct (value (ordinary_sage_cone.c self)) as [|y ys];
        [now destruct Hne|].
      cbn [map np.linalg_norm np.abs]. rewrite map_map.
      change (Qabs 0) with 0%Q. f_equal.
      apply fold_left_Qmax_zeros.
      intros z Hz. apply in_map_iff in Hz as [w [<- _]]. reflexivity.
  - intros Hneg Hlt ord.
    unfold ordinary_sage_cone.violation. cbn [np.array fst snd].
    apply Z.ltb_lt in Hlt. rewrite Hlt.
    unfold violation_large, project. cbn [negb np.tolist np.data app nth List.length].
    assert (H : forallb (fun y => Qle_bool 0 y)
                        (value (ordinary_sage_cone.c self)) = false).
    { apply not_true_is_false. intros Hall.
      apply Exists_exists in Hneg as [y [Hy Hlt']].
      rewrite forallb_forall in Hall. apply Hall, Qle_bool_iff in Hy.
      now apply (Qlt_not_le _ _ Hlt'). }
    now rewrite H.
Qed.

End sage_nonnegative.

(** The cone of four terms whose [c] is [(v0, 1, 1, 2)], at [v0 = 0]. *)
Lemma sage_violation_of_nonnegative_witness :
  ordinary_sage_cone.violation
    (algebra.value (fun _ => 0%Q)) (fun q => q)
    (violation_large (fun _ _ => Raise NotImplementedError)
                     (fun _ _ _ => Raise NotImplementedError))
    example_cone np.ord_inf false = Ok 0%Q.
Proof.
  apply (proj1 (sage_violation_of_nonnegative
                  (algebra.value (fun _ => 0%Q)) (fun q => q)
                  (fun _ _ => Raise NotImplementedError)
                  (fun _ _ _ => Raise NotImplementedError) example_cone)).
  - repeat constructor; discriminate.
  - left. cbn. lia.
Defined.

(** The cone of two terms whose [c] is [(-1, 2)]. *)
Lemma sage_conic_form_small_unpacks_five_witness :
  ordinary_sage_cone.conic_form
    algebra.sub (fun _ g => Ok ([], g))
    (ordinary_sage_cone.__init__ examples.c_minus1_2 [[0%Q]; [1%Q]] "con")
    examples.g8
  = Raise (ValueError "too many values to unpack (expected 5)").
Proof.
  apply sage_conic_form_small_unpacks_five. cbn. lia.
Defined.

(** ** The conversion of gpkit monomial maps *)

Lemma setitem_nat_length (b : list Q) :
  forall (i : nat) (v : Q) (b' : list Q),
    np.setitem_nat b i v = Ok b' -> List.length b' = List.length b.
Proof.
  induction b as [|x b IH]; intros [|i] v b' H; cbn in H; try discriminate.
  - now injection H as <-.
  - destruct (np.setitem_nat b i v) as [tl|] eqn:E; cbn in H; [|discriminate].
    injection H as <-. cbn. f_equal. now apply (IH i v).
Qed.

Lemma setitem_nat_nth (b : list Q) :
  forall (i : nat) (v : Q),
    (i < List.length b)%nat ->
    exists b', np.setitem_nat b i v = Ok b'
               /\ forall q, nth_error b' q
                            = if (q =? i)%nat then Some v else nth_error b q.
Proof.
  induction b as [|x b IH]; intros [|i] v Hi; cbn in Hi; try lia.
  - eexists. split; [reflexivity|]. intros [|q]; reflexivity.
  - destruct (IH i v) as (tl & Htl & Hnth); [lia|].
    cbn [np.setitem_nat]. rewrite Htl. eexists. split; [reflexivity|].
    intros [|q]; [reflexivity|]. cbn [nth_error Nat.eqb]. apply Hnth.
Qed.

Lemma setitem_in_range (b : list Q) (k : Z) (v : Q) :
  0 <= k < Z.of_nat (List.length b) ->
  exists b', np.setitem b k v = Ok b'
             /\ List.length b' = List.length b
             /\ forall q, nth_error b' q
                          = if (q =? Z.to_nat k)%nat then Some v
                            else nth_error b q.
Proof.
  intros Hk. unfold np.setitem.
  destruct (Z.ltb_spec k 0) as [H|_]; [lia|].
  destruct (Z.ltb_spec k 0) as [H|_]; [lia|].
  destruct (setitem_nat_nth b (Z.to_nat k) v) as (b' & Hb' & Hnth); [lia|].
  exists b'. split; [exact Hb'|]. split; [|exact Hnth].
  now apply setitem_nat_length in Hb'.
Qed.

Lemma setitem_length (b : list Q) (k : Z) (v : Q) (b' : list Q) :
  np.setitem b k v = Ok b' -> List.length b' = List.length b.
Proof.
  unfold np.setitem.
  cbv zeta.
  destruct ((if k <? 0 then Z.of_nat (List.length b) + k else k) <? 0);
    [discriminate|]. apply setitem_nat_length.
Qed.

Lemma tuple_eqb_refl (t : list Q) : tuple_eqb t t = true.
Proof.
  induction t as [|a t IH]; cbn; [reflexivity|].
  rewrite IH, andb_true_r. apply Qeq_bool_iff. reflexivity.
Qed.

Lemma tuple_get_insert_same (d : list (list Q * Q)) (t : list Q) (v : Q) :
  tuple_get (dict_insert tuple_eqb d t v) t = Some v.
Proof.
  induction d as [|[t' v'] d IH]; cbn [dict_insert tuple_get].
  - now rewrite tuple_eqb_refl.
  - destruct (tuple_eqb t t') eqn:E; cbn [tuple_get]; rewrite E;
      [reflexivity|exact IH].
Qed.

Lemma dict_insert_widths (n : nat) (d : list (list Q * Q)) (t : list Q)
    (v : Q) :
  Forall (fun kv => List.length (fst kv) = n) d ->
  List.length t = n ->
  Forall (fun kv => List.length (fst kv) = n) (dict_insert tuple_eqb d t v).
Proof.
  intros Hd Ht. induction Hd as [|[t' v'] d Ht' Hd IH]; cbn [dict_insert].
  - now repeat constructor.
  - destruct (tuple_eqb t t'); constructor; assumption.
Qed.

Section gpkit_facts.

Variable VarKey : Type.
Variable varkey_eqb : VarKey -> VarKey -> bool.

Lemma fill_tuple_length (vkmap : list (VarKey * Z))
    (expinfo : list (VarKey * Q)) :
  forall tup tup',
    fill_tuple VarKey varkey_eqb vkmap expinfo tup = Returned tup' ->
    List.length tup' = List.length tup.
Proof.
  induction expinfo as [|[vk e] rest IH]; intros tup tup' H;
    cbn [fill_tuple] in H.
  - now injection H as <-.
  - destruct (vkmap_get VarKey varkey_eqb vkmap vk) as [k|]; cbn in H;
      [|discriminate].
    destruct (np.setitem tup k e) as [tup1|] eqn:E; cbn in H; [|discriminate].
    apply IH in H. apply setitem_length in E. congruence.
Qed.

Lemma vkmap_get_range (vkmap : list (VarKey * Z)) (n : Z) (vk : VarKey) :
  Forall (fun p => 0 <= snd p < n) vkmap ->
  vkmap_get VarKey varkey_eqb vkmap vk = Raised KeyError
  \/ exists k, vkmap_get VarKey varkey_eqb vkmap vk = Returned k
               /\ 0 <= k < n.
Proof.
  induction 1 as [|[vk' k] vkmap Hk _ IH]; cbn [vkmap_get]; [now left|].
  destruct (varkey_eqb vk vk'); [|exact IH].
  right. exists k. now split.
Qed.

Lemma fill_tuple_total (vkmap : list (VarKey * Z))
    (expinfo : list (VarKey * Q)) :
  Forall (fun p => 0 <= snd p < Z.of_nat (List.length vkmap)) vkmap ->
  forall tup,
    List.length tup = List.length vkmap ->
    (Forall (fun p => vkmap_get VarKey varkey_eqb vkmap (fst p)
                      <> Raised KeyError) expinfo ->
     exists tup', fill_tuple VarKey varkey_eqb vkmap expinfo tup
                  = Returned tup')
    /\ (Exists (fun p => vkmap_get VarKey varkey_eqb vkmap (fst p)
                         = Raised KeyError) expinfo ->
        fill_tuple VarKey varkey_eqb vkmap expinfo tup = Raised KeyError).
Proof.
  intros Hrange.
  induction expinfo as [|[vk e] rest IH]; intros tup Hlen.
  - split; [intros _; now eexists|]. intros H. inversion H.
  - cbn [fill_tuple].
    destruct (vkmap_get_range vkmap _ vk Hrange) as [Hk|[k [Hk Hkr]]];
      rewrite Hk; cbn [and_then].
    + split; [|reflexivity].
      intros H. inversion H as [|? ? Hvk _]. now cbn in Hvk.
    + destruct (setitem_in_range tup k e) as (tup1 & Hs & Hl & _); [lia|].
      rewrite Hs. cbn [of_result and_then].
      destruct (IH tup1) as [IH1 IH2]; [congruence|]. split.
      * intros H. inversion H. now apply IH1.
      * intros H. inversion H as [? ? Hvk|? ? Hex]; [|now apply IH2].
        cbn in Hvk. congruence.
Qed.

(** X15: With a key map whose indices are positions of the tuple (as
    [enumerate] builds it), the conversion fails exactly on a monomial that
    mentions a key absent from the map, and then with KeyError; when it
    returns, every exponent tuple has one entry per key of the map, there
    are at most as many terms as monomials, and the coefficient of the last
    monomial is the one stored for its tuple: monomials with equal tuples
    are not added up. *)
Theorem gpkit_hmap_conversion (vkmap : list (VarKey * Z))
    (curhmap : list (list (VarKey * Q) * Q)) :
  Forall (fun p => 0 <= snd p < Z.of_nat (List.length vkmap)) vkmap ->
  (Forall (fun item =>
             Forall (fun p => vkmap_get VarKey varkey_eqb vkmap (fst p)
                              <> Raised KeyError) (fst item)) curhmap ->
   exists d,
     temp_sig_dict_of VarKey varkey_eqb curhmap vkmap = Returned d
     /\ Forall (fun kv => List.length (fst kv) = List.length vkmap) d
     /\ (List.length d <= List.length curhmap)%nat
     /\ forall items expinfo coeff,
         curhmap = items ++ [(expinfo, coeff)] ->
         exists tup,
           fill_tuple VarKey varkey_eqb vkmap expinfo
                      (repeat 0%Q (List.length vkmap)) = Returned tup
           /\ tuple_get d tup = Some coeff)
  /\ (Exists (fun item =>
                Exists (fun p => vkmap_get VarKey varkey_eqb vkmap (fst p)
                                 = Raised KeyError) (fst item)) curhmap ->
      temp_sig_dict_of VarKey varkey_eqb curhmap vkmap = Raised KeyError).
Proof.
  intros Hrange. unfold temp_sig_dict_of.
  assert (Hgen : forall items d0,
             Forall (fun kv => List.length (fst kv) = List.length vkmap) d0 ->
             (Forall (fun item =>
                        Forall (fun p =>
                                  vkmap_get VarKey varkey_eqb vkmap (fst p)
                                  <> Raised KeyError) (fst item)) items ->
              exists d,
                hmap_loop VarKey varkey_eqb vkmap items d0 = Returned d
                /\ Forall (fun kv => List.length (fst kv)
                                     = List.length vkmap) d
                /\ (List.length d
                    <= List.length d0 + List.length items)%nat
                /\ forall front expinfo coeff,
                    items = front ++ [(expinfo, coeff)] ->
                    exists tup,
                      fill_tuple VarKey varkey_eqb vkmap expinfo
                                 (repeat 0%Q (List.length vkmap))
                      = Returned tup
                      /\ tuple_get d tup = Some coeff)
             /\ (Exists (fun item =>
                           Exists (fun p =>
                                     vkmap_get VarKey varkey_eqb vkmap (fst p)
                                     = Raised KeyError) (fst item)) items ->
                 hmap_loop VarKey varkey_eqb vkmap items d0
                 = Raised KeyError)).
  { induction items as [|[expinfo coeff] items IH]; intros d0 Hd0.
    - split.
      + intros _. exists d0. cbn. split; [reflexivity|].
        split; [exact Hd0|]. split; [lia|].
        intros [|? ?] ? ? H; discriminate H.
      + intros H. inversion H.
    - cbn [hmap_loop].
      destruct (fill_tuple_total vkmap expinfo Hrange
                  (repeat 0%Q (List.length vkmap)) (repeat_length _ _))
        as [Hok Herr].
      split.
      + intros Hall. inversion Hall as [|? ? Hhd Htl]. subst.
        destruct (Hok Hhd) as [tup Htup]. rewrite Htup. cbn [and_then].
        assert (Hd1 : Forall (fun kv => List.length (fst kv)
                                        = List.length vkmap)
                             (dict_insert tuple_eqb d0 tup coeff)).
        { apply fill_tuple_length in Htup. rewrite repeat_length in Htup.
          now apply dict_insert_widths. }
        destruct (IH _ Hd1) as [IH1 _].
        destruct (IH1 Htl) as (d & Hd & Hw & Hl & Hlast).
        exists d. split; [exact Hd|]. split; [exact Hw|]. split.
        * pose proof (dict_insert_length tuple_eqb d0 tup coeff).
          cbn [List.length]. lia.
        * intros front e' c' Heq. destruct front as [|it front].
          -- destruct items as [|? ?]; [|discriminate Heq].
             cbn in Heq. injection Heq as <- <-.
             exists tup. split; [exact Htup|].
             cbn in Hd. injection Hd as <-. apply tuple_get_insert_same.
          -- cbn in Heq. injection Heq as _ Heq. now apply (Hlast front).
      + intros Hex. inversion Hex as [? ? Hhd|? ? Htl]; subst.
        * now rewrite (Herr Hhd).
        * destruct (fill_tuple VarKey varkey_eqb vkmap expinfo
                      (repeat 0%Q (List.length vkmap))) as [tup|e] eqn:Htup.
          -- cbn [and_then].
             assert (Hd1 : Forall (fun kv => List.length (fst kv)
                                             = List.length vkmap)
                                  (dict_insert tuple_eqb d0 tup coeff)).
             { apply fill_tuple_length in Htup.
               rewrite repeat_length in Htup.
               now apply dict_insert_widths. }
             destruct (IH _ Hd1) as [_ IH2]. now apply IH2.
          -- cbn [and_then].
             assert (Hcases : Forall (fun p =>
                                        vkmap_get VarKey varkey_eqb vkmap
                                                  (fst p)
                                        <> Raised KeyError) expinfo
                              \/ Exists (fun p =>
                                           vkmap_get VarKey varkey_eqb vkmap
                                                     (fst p)
                                           = Raised KeyError) expinfo).
             { clear. induction expinfo as [|p l IHl]; [now left|].
               destruct IHl as [IHl|IHl]; [|right; now constructor 2].
               destruct (vkmap_get VarKey varkey_eqb vkmap (fst p))
                 as [k|[|e0]] eqn:E.
               - left. constructor; [rewrite E; discriminate|exact IHl].
               - right. now constructor.
               - left. constructor; [rewrite E; discriminate|exact IHl]. }
             destruct Hcases as [Hc|Hc].
             ++ destruct (Hok Hc) as [tup Ht]. congruence.
             ++ pose proof (Herr Hc) as He. injection He as ->.
                reflexivity. }
  destruct (Hgen curhmap [] (Forall_nil _)) as [H1 H2]. split.
  - intros Hall. destruct (H1 Hall) as (d & Hd & Hw & Hl & Hlast).
    exists d. repeat split; assumption.
  - exact H2.
Qed.

Lemma fill_tuple_entries (vkmap : list (VarKey * Z))
    (expinfo : list (VarKey * Q)) (idxs : list Z) :
  Forall2 (fun p k => vkmap_get VarKey varkey_eqb vkmap (fst p) = Returned k)
          expinfo idxs ->
  NoDup idxs ->
  forall tup0,
    Forall (fun k => 0 <= k < Z.of_nat (List.length tup0)) idxs ->
    exists tup,
      fill_tuple VarKey varkey_eqb vkmap expinfo tup0 = Returned tup
      /\ List.length tup = List.length tup0
      /\ Forall2 (fun p k => nth_error tup (Z.to_nat k) = Some (snd p))
                 expinfo idxs
      /\ forall q, ~ In (Z.of_nat q) idxs ->
                   nth_error tup q = nth_error tup0 q.
Proof.
  induction 1 as [|[vk e] k expinfo idxs Hk _ IH]; intros Hnd tup0 Hr.
  - exists tup0. cbn. repeat split; auto.
  - inversion Hnd as [|? ? Hnin Hnd']. inversion Hr as [|? ? Hkr Hr']. subst.
    cbn [fill_tuple fst] in *. rewrite Hk. cbn [and_then].
    destruct (setitem_in_range tup0 k e Hkr) as (tup1 & Hs & Hl & Hnth).
    rewrite Hs. cbn [of_result and_then].
    destruct (IH Hnd' tup1) as (tup & Hf & Hlen & Hvals & Hrest).
    { now rewrite Hl. }
    exists tup. split; [exact Hf|]. split; [congruence|]. split.
    + constructor; [|exact Hvals]. cbn [snd].
      rewrite Hrest by (rewrite Z2Nat.id by lia; exact Hnin).
      now rewrite Hnth, Nat.eqb_refl.
    + intros q Hq. rewrite Hrest by (intros H; apply Hq; now right).
      rewrite Hnth. destruct (Nat.eqb_spec q (Z.to_nat k)) as [->|_];
        [|reflexivity].
      exfalso. apply Hq. left. lia.
Qed.

(** X16: The exponent tuple of a monomial whose keys have distinct positions in
    the key map: the exponent of each key sits at the position of the key,
    and every other entry is 0. *)
Theorem gpkit_tuple_entries (vkmap : list (VarKey * Z))
    (expinfo : list (VarKey * Q)) (idxs : list Z) :
  Forall2 (fun p k => vkmap_get VarKey varkey_eqb vkmap (fst p) = Returned k)
          expinfo idxs ->
  NoDup idxs ->
  Forall (fun k => 0 <= k < Z.of_nat (List.length vkmap)) idxs ->
  exists tup,
    fill_tuple VarKey varkey_eqb vkmap expinfo
               (repeat 0%Q (List.length vkmap)) = Returned tup
    /\ List.length tup = List.length vkmap
    /\ Forall2 (fun p k => nth_error tup (Z.to_nat k) = Some (snd p))
               expinfo idxs
    /\ forall q, (q < List.length vkmap)%nat -> ~ In (Z.of_nat q) idxs ->
                 nth_error tup q = Some 0%Q.
Proof.
  intros Hget Hnd Hr.
  destruct (fill_tuple_entries vkmap expinfo idxs Hget Hnd
              (repeat 0%Q (List.length vkmap)))
    as (tup & Hf & Hlen & Hvals & Hrest).
  { now rewrite repeat_length. }
  exists tup. split; [exact Hf|]. rewrite repeat_length in Hlen.
  split; [exact Hlen|]. split; [exact Hvals|].
  intros q Hq Hnin. rewrite (Hrest q Hnin).
  apply nth_error_repeat. exact Hq.
Qed.

End gpkit_facts.

(** Three keys [0, 1, 2] mapped to the positions [2, 0, 1]; the monomials
    [k0^2 k2^3] and [k1] with coefficients 5 and 7. *)
Lemma gpkit_hmap_conversion_witness :
  temp_sig_dict_of Z Z.eqb
    [([(0, 2%Q); (2, 3%Q)], 5%Q); ([(1, 1%Q)], 7%Q)]
    [(0, 2); (1, 0); (2, 1)]
  = Returned [([0%Q; 3%Q; 2%Q], 5%Q); ([1%Q; 0%Q; 0%Q], 7%Q)]
  /\ temp_sig_dict_of Z Z.eqb
       [([(0, 2%Q); (5, 3%Q)], 5%Q)] [(0, 2); (1, 0); (2, 1)]
     = Raised KeyError.
Proof.
  destruct (gpkit_hmap_conversion Z Z.eqb [(0, 2); (1, 0); (2, 1)]
              [([(0, 2%Q); (2, 3%Q)], 5%Q); ([(1, 1%Q)], 7%Q)])
    as [Hok _]; [repeat constructor; cbn; lia|].
  destruct (gpkit_hmap_conversion Z Z.eqb [(0, 2); (1, 0); (2, 1)]
              [([(0, 2%Q); (5, 3%Q)], 5%Q)])
    as [_ Herr]; [repeat constructor; cbn; lia|].
  split.
  - destruct Hok as (d & Hd & _); [repeat constructor; discriminate|].
    rewrite Hd. cbn in Hd. injection Hd as <-. reflexivity.
  - apply Herr. constructor. constructor 2. constructor. reflexivity.
Defined.

(** The monomial [k0^2 k2^3] under the same key map. *)
Lemma gpkit_tuple_entries_witness :
  exists tup,
    fill_tuple Z Z.eqb [(0, 2); (1, 0); (2, 1)] [(0, 2%Q); (2, 3%Q)]
               (repeat 0%Q 3) = Returned tup
    /\ nth_error tup 2 = Some 2%Q
    /\ nth_error tup 1 = Some 3%Q
    /\ nth_error tup 0 = Some 0%Q.
Proof.
  destruct (gpkit_tuple_entries Z Z.eqb [(0, 2); (1, 0); (2, 1)]
              [(0, 2%Q); (2, 3%Q)] [2; 1])
    as (tup & Hf & _ & Hvals & Hrest).
  - repeat constructor.
  - repeat constructor; cbn; intuition lia.
  - repeat constructor; cbn; lia.
  - exists tup. split; [exact Hf|].
    inversion Hvals as [|? ? ? ? H2 Hvals']. subst.
    inversion Hvals' as [|? ? ? ? H1 _]. subst.
    split; [exact H2|]. split; [exact H1|].
    apply (Hrest 0%nat); cbn; intuition lia.
Defined.

(** ** The aligned AGE vectors *)

Lemma mask_fill_length {A : Type} (a : list A) :
  forall (mask : list bool) (values : list A),
    List.length (mask_fill a mask values) = List.length a.
Proof.
  induction a as [|x a IH]; intros [|[|] mask] values; cbn [mask_fill];
    try reflexivity.
  - destruct values; cbn [List.length]; now rewrite IH.
  - cbn [List.length]. now rewrite IH.
Qed.

Lemma mask_fill_nth {A : Type} (a : list A) :
  forall (mask : list bool) (values : list A) (j : nat),
    List.length mask = List.length a ->
    List.length values = count_nonzero mask ->
    nth_error (mask_fill a mask values) j
    = if nth j mask false
      then nth_error values (selected_before mask j)
      else nth_error a j.
Proof.
  unfold selected_before, count_nonzero.
  induction a as [|x a IH]; intros [|t mask] values j Hlen Hvals;
    try discriminate.
  - cbn. now destruct j.
  - injection Hlen as Hlen. destruct t; cbn [filter List.length] in Hvals.
    + destruct values as [|v values]; [discriminate|].
      injection Hvals as Hvals. cbn [mask_fill].
      destruct j as [|j]; [reflexivity|].
      cbn [nth_error nth firstn filter List.length].
      now apply IH.
    + cbn [mask_fill]. destruct j as [|j]; [reflexivity|].
      cbn [nth_error nth firstn filter]. now apply IH.
Qed.

Lemma selected_before_lt (mask : list bool) :
  forall j, nth j mask false = true ->
            (selected_before mask j < count_nonzero mask)%nat.
Proof.
  unfold selected_before, count_nonzero.
  induction mask as [|t mask IH]; intros [|j] Hj; cbn in Hj; try discriminate.
  - subst t. cbn. lia.
  - specialize (IH j Hj). destruct t; cbn [firstn filter List.length]; lia.
Qed.

Lemma removelast_nth_error {A : Type} (l : list A) (k : nat) :
  (S k < List.length l)%nat ->
  nth_error (removelast l) k = nth_error l k.
Proof.
  revert k. induction l as [|x l IH]; intros k Hk; [cbn in Hk; lia|].
  destruct l as [|y l]; [cbn in Hk; lia|].
  destruct k as [|k]; [reflexivity|].
  cbn [removelast nth_error]. apply IH. cbn in *. lia.
Qed.

Lemma removelast_length {A : Type} (l : list A) :
  List.length (removelast l) = pred (List.length l).
Proof.
  induction l as [|x l IH]; [reflexivity|].
  destruct l as [|y l]; [reflexivity|].
  cbn [removelast List.length] in *. now rewrite IH.
Qed.

Lemma list_setitem_nat_nth {A : Type} (a : list A) :
  forall (i : nat) (v : A),
    (i < List.length a)%nat ->
    exists a', list_setitem_nat a i v = Ok a'
               /\ List.length a' = List.length a
               /\ forall q, nth_error a' q
                            = if (q =? i)%nat then Some v else nth_error a q.
Proof.
  induction a as [|x a IH]; intros [|i] v Hi; cbn in Hi; try lia.
  - eexists. split; [reflexivity|]. split; [reflexivity|].
    intros [|q]; reflexivity.
  - destruct (IH i v) as (tl & Htl & Hlen & Hnth); [lia|].
    cbn [list_setitem_nat]. rewrite Htl. eexists. split; [reflexivity|].
    split; [cbn; now rewrite Hlen|].
    intros [|q]; [reflexivity|]. cbn [nth_error Nat.eqb]. apply Hnth.
Qed.

Lemma list_setitem_in_range {A : Type} (a : list A) (i : Z) (v : A) :
  0 <= i < Z.of_nat (List.length a) ->
  exists a', list_setitem a i v = Ok a'
             /\ List.length a' = List.length a
             /\ forall q, nth_error a' q
                          = if (q =? Z.to_nat i)%nat then Some v
                            else nth_error a q.
Proof.
  intros Hi. unfold list_setitem.
  destruct (Z.ltb_spec i 0) as [H|_]; [lia|].
  destruct (Z.ltb_spec i 0) as [H|_]; [lia|].
  apply list_setitem_nat_nth. lia.
Qed.

Lemma list_getitem_in_range {A : Type} (a : list A) (i : Z) :
  0 <= i < Z.of_nat (List.length a) ->
  exists x, list_getitem a i = Ok x /\ nth_error a (Z.to_nat i) = Some x.
Proof.
  intros Hi. unfold list_getitem.
  destruct (Z.ltb_spec i 0) as [H|_]; [lia|].
  destruct (Z.ltb_spec i 0) as [H|_]; [lia|].
  destruct (nth_error a (Z.to_nat i)) as [x|] eqn:E.
  - now exists x.
  - apply nth_error_None in E. lia.
Qed.

Lemma list_getitem_last {A : Type} (a : list A) :
  a <> [] ->
  exists x, list_getitem a (-1) = Ok x
            /\ nth_error a (pred (List.length a)) = Some x.
Proof.
  intros Hne. unfold list_getitem.
  assert (0 < List.length a)%nat by (destruct a; [congruence|cbn; lia]).
  cbn [Z.ltb Z.compare].
  destruct (Z.ltb_spec (Z.of_nat (List.length a) + -1) 0) as [Hlt|_]; [lia|].
  replace (Z.to_nat (Z.of_nat (List.length a) + -1))
    with (pred (List.length a)) by lia.
  destruct (nth_error a (pred (List.length a))) as [x|] eqn:E.
  - now exists x.
  - apply nth_error_None in E. lia.
Qed.

Section age_vectors.

Variable self : ordinary_sage_cone.PrimalOrdinarySageCone.
Variable ech : ExpCoverHelper.
Variable st : SageVariables.

Hypothesis c_size :
  List.length (ordinary_sage_cone.c self)
  = Z.to_nat (ordinary_sage_cone.m self).

Lemma aligned_age_vector_spec (i : Z) (cv : VariableArray) :
  index_ready self ech st i cv ->
  exists av, aligned_age_vector self ech st i = Returned av
             /\ is_age_vector self ech i cv av.
Proof.
  intros (Hi & Hmask & Hcv & Hlen). unfold aligned_age_vector, dict_lookup.
  rewrite Hcv. cbn [and_then].
  set (m := Z.to_nat (ordinary_sage_cone.m self)) in *.
  set (zeros := repeat (algebra.const 0%Q) m).
  assert (Hz : List.length zeros = m) by apply repeat_length.
  unfold c_length in Hlen. fold (nu_length ech i) in Hlen.
  assert (Hentries : List.length (variable_entries cv)
                     = List.length (scalar_variables cv))
    by apply length_map.
  unfold is_age_vector. fold m.
  destruct (contains (N_I ech) i) eqn:HN.
  - (* i in N_I *)
    unfold setitem_mask. rewrite Hmask, Hz, Nat.eqb_refl. cbn [negb].
    rewrite Hentries, Hlen, Nat.add_0_r.
    unfold nu_length. rewrite Nat.eqb_refl. cbn [of_result and_then].
    destruct (list_getitem_in_range (ordinary_sage_cone.c self) i)
      as (c_i & Hget & Hci); [lia|].
    rewrite Hget. cbn [of_result and_then].
    destruct (list_setitem_in_range
                (mask_fill zeros (expcovers ech i) (variable_entries cv))
                i c_i) as (av & Hset & Hl & Hnth).
    { rewrite mask_fill_length, Hz. lia. }
    rewrite Hset. cbn [of_result]. exists av. split; [reflexivity|].
    split; [now rewrite Hl, mask_fill_length|]. split.
    + now rewrite Hnth, Nat.eqb_refl, Hci.
    + intros j Hj Hjm. rewrite Hnth.
      apply Nat.eqb_neq in Hj. rewrite Hj.
      rewrite mask_fill_nth.
      * destruct (nth j (expcovers ech i) false); [reflexivity|].
        now apply nth_error_repeat.
      * congruence.
      * rewrite Hentries, Hlen. unfold nu_length. lia.
  - (* i not in N_I *)
    assert (Hrl : List.length (removelast (variable_entries cv))
                  = nu_length ech i).
    { rewrite removelast_length, Hentries, Hlen. lia. }
    unfold setitem_mask. rewrite Hmask, Hz, Nat.eqb_refl. cbn [negb].
    rewrite Hrl. unfold nu_length at 1. rewrite Nat.eqb_refl.
    cbn [of_result and_then].
    destruct (list_getitem_last (variable_entries cv)) as (lst & Hget & Hlst).
    { intros Hnil. rewrite Hnil in Hentries. cbn in Hentries. lia. }
    rewrite Hget. cbn [of_result and_then].
    destruct (list_setitem_in_range
                (mask_fill zeros (expcovers ech i)
                           (removelast (variable_entries cv)))
                i lst) as (av & Hset & Hl & Hnth).
    { rewrite mask_fill_length, Hz. lia. }
    rewrite Hset. cbn [of_result]. exists av. split; [reflexivity|].
    split; [now rewrite Hl, mask_fill_length|]. split.
    + rewrite Hnth, Nat.eqb_refl, <- Hlst. f_equal. lia.
    + intros j Hj Hjm. rewrite Hnth.
      apply Nat.eqb_neq in Hj. rewrite Hj.
      rewrite mask_fill_nth.
      * destruct (nth j (expcovers ech i) false) eqn:Hmj;
          [|now apply nth_error_repeat].
        apply removelast_nth_error.
        apply selected_before_lt in Hmj. fold (nu_length ech i) in Hmj. lia.
      * congruence.
      * exact Hrl.
Qed.

Lemma aligned_age_vectors_shape
    (age_vectors : list (Z * expressions.Expression)) :
  (forall i, In i (U_I ech) -> exists cv, index_ready self ech st i cv) ->
  exists avs,
    _build_aligned_age_vectors self ech st age_vectors = Returned avs
    /\ forall i, In i (U_I ech) ->
                 exists cv av,
                   dict_get (c_vars st) i = Some cv
                   /\ dict_get avs i = Some av
                   /\ is_age_vector self ech i cv av.
Proof.
  unfold _build_aligned_age_vectors.
  generalize (U_I ech) as todo. intros todo. revert age_vectors.
  induction todo as [|i rest IH]; intros avs0 Hready.
  - exists avs0. split; [reflexivity|]. intros i [].
  - destruct (Hready i (or_introl eq_refl)) as [cv Hcv].
    destruct (aligned_age_vector_spec i cv Hcv) as (av & Hav & Hshape).
    cbn [build_loop]. rewrite Hav. cbn [and_then].
    destruct (IH (dict_insert Z.eqb avs0 i av)) as (avs & Hloop & Hall).
    { intros k Hk. apply Hready. now right. }
    exists avs. split; [exact Hloop|].
    intros k Hk. destruct (in_dec Z.eq_dec k rest) as [Hin|Hnin];
      [now apply Hall|].
    destruct Hk as [<-|Hk]; [|contradiction].
    exists cv, av. split; [apply Hcv|]. split; [|exact Hshape].
    assert (Hkeep : forall todo d d',
               ~ In i todo ->
               build_loop self ech st todo d = Returned d' ->
               dict_get d' i = dict_get d i).
    { clear. induction todo as [|k todo IHt]; intros d d' Hni H;
        cbn [build_loop] in H.
      - now injection H as <-.
      - destruct (aligned_age_vector self ech st k) as [v|]; cbn in H;
          [|discriminate].
        rewrite (IHt _ _ (fun Hin => Hni (or_intror Hin)) H).
        rewrite dict_get_insert.
        destruct (Z.eqb_spec i k) as [->|_]; [|reflexivity].
        exfalso. apply Hni. now left. }
    rewrite (Hkeep rest _ _ Hnin Hloop), dict_get_insert, Z.eqb_refl.
    reflexivity.
Qed.

End age_vectors.

(** X17: [_build_aligned_age_vectors] after [_initialize_variables], on a cone
    of more than two terms whose indices in [U_I] are positions of [c] with
    selectors of length [m]: it returns, and every index of [U_I] gets a
    vector of length [m] that is 0 outside the cover and the index itself,
    holds the variables of [c_vars[i]], in order, at the positions of the
    cover, and holds at position [i] the entry [c[i]] when [i] is in [N_I]
    and the last variable of [c_vars[i]] otherwise. *)
Theorem age_vectors_after_initialize
    (self : ordinary_sage_cone.PrimalOrdinarySageCone) (ech : ExpCoverHelper)
    (c_variables : list VariableArray) (g : base.Globals)
    (age_vectors : list (Z * expressions.Expression)) :
  2 < ordinary_sage_cone.m self ->
  List.length (ordinary_sage_cone.c self)
  = Z.to_nat (ordinary_sage_cone.m self) ->
  (forall i, In i (U_I ech) ->
             0 <= i < ordinary_sage_cone.m self
             /\ List.length (expcovers ech i)
                = Z.to_nat (ordinary_sage_cone.m self)) ->
  let st := fst (_initialize_variables self ech c_variables g) in
  exists avs,
    _build_aligned_age_vectors self ech st age_vectors = Returned avs
    /\ forall i, In i (U_I ech) ->
                 exists cv av,
                   dict_get (c_vars st) i = Some cv
                   /\ List.length (scalar_variables cv) = c_length ech i
                   /\ dict_get avs i = Some av
                   /\ is_age_vector self ech i cv av.
Proof.
  intros Hm Hc Hidx st.
  assert (Hcv : forall i, In i (U_I ech) ->
                          exists cv, dict_get (c_vars st) i = Some cv
                                     /\ List.length (scalar_variables cv)
                                        = c_length ech i).
  { unfold st, _initialize_variables.
    destruct (Z.ltb_spec 2 (ordinary_sage_cone.m self)); [|lia].
    pose proof (initialize_loop_spec ech (ordinary_sage_cone.name self)
                  (U_I ech)
                  {| nu_vars := []; c_vars := []; relent_epi_vars := [];
                     _variables := c_variables |} g) as S.
    cbv zeta in S.
    destruct (initialize_loop ech (ordinary_sage_cone.name self) (U_I ech)
                {| nu_vars := []; c_vars := []; relent_epi_vars := [];
                   _variables := c_variables |} g) as [st1 g1].
    cbn [fst snd c_vars] in *.
    destruct S as (_ & _ & _ & _ & _ & Hcv & _). exact Hcv. }
  destruct (aligned_age_vectors_shape self ech st Hc age_vectors)
    as (avs & Hb & Hall).
  { intros i Hi. destruct (Hcv i Hi) as (cv & H1 & H2).
    destruct (Hidx i Hi) as [H3 H4]. exists cv.
    unfold index_ready. tauto. }
  exists avs. split; [exact Hb|].
  intros i Hi. destruct (Hall i Hi) as (cv & av & H1 & H2 & H3).
  destruct (Hcv i Hi) as (cv' & H1' & H2').
  rewrite H1 in H1'. injection H1' as <-.
  exists cv, av. split; [exact H1|]. split; [exact H2'|].
  split; [exact H2|exact H3].
Qed.

(** The cone of four terms with [U_I = (0, 3)]: index 0 is covered by the
    terms 1 and 2 and is not in [N_I], index 3 has an empty cover and is in
    [N_I]. *)
Lemma age_vectors_after_initialize_witness :
  exists avs,
    _build_aligned_age_vectors
      example_cone example_ech
      (fst (_initialize_variables example_cone example_ech [] examples.g8))
      [] = Returned avs
    /\ dict_get avs 0
       = Some [variable_entry {| base.id := 14 |};
               variable_entry {| base.id := 12 |};
               variable_entry {| base.id := 13 |};
               algebra.const 0%Q]
    /\ dict_get avs 3
       = Some [algebra.const 0%Q; algebra.const 0%Q; algebra.const 0%Q;
               algebra.const 2%Q].
Proof.
  destruct (age_vectors_after_initialize example_cone example_ech []
              examples.g8 []) as (avs & Hb & _).
  - cbn. lia.
  - reflexivity.
  - intros i [<-|[<-|[]]]; cbn; split; (lia || reflexivity).
  - exists avs. split; [exact Hb|].
    cbn in Hb. injection Hb as <-. split; reflexivity.
Defined.
